(** * userver: engine::subprocess and the gRPC test service

    A shallow embedding of [engine/subprocess/process_starter.cpp] with the
    two public headers [process_starter.hpp] and [child_process_status.hpp],
    and of the service of [grpc/src/tests/grpc_client_base_test.cpp].

    For the subprocess part the process is a record of its user-space state
    (the pid registry, the shared states of promises, [environ], [errno])
    together with the trace of every call the code makes to the kernel, libc,
    the logger, the tracing span and the registry.  The kernel's answers
    ([fork], [execve]) are inputs.  Code is written in a small state monad
    whose results distinguish a normal return, a C++ exception, [abort()], a
    successful [execve] (which does not return) and a task that stays
    suspended on a future.

    The models come first, the properties after them. *)

From stdpp Require Import base gmap strings list pretty.

#[local] Open Scope Z_scope.

(** * clients::grpc::test — the service of grpc_client_base_test.cpp

    [UnitTestServiceImpl] and the helpers of the test next to it.  A stream
    that the service reads is the list of the messages the client sends; a
    stream that it writes is the list of the messages written, in order (the
    result of [Write] is not looked at by the code).  The metadata of a
    context is a list of pairs.  [EXPECT_EQ] records whether it held. *)

Module grpc_test.

(** The messages of [unit_test.proto], through the accessors the code uses:
    [name()], [set_name], [number()], [set_number]. *)
Record Greeting := mkGreeting {
  g_name : string
}.

Record StreamGreeting := mkStreamGreeting {
  sg_name : string;
  sg_number : Z
}.

Definition set_name (sg : StreamGreeting) (name : string) : StreamGreeting :=
  mkStreamGreeting name (sg_number sg).

Definition set_number (sg : StreamGreeting) (number : Z) : StreamGreeting :=
  mkStreamGreeting (sg_name sg) number.

(** A default-constructed message. *)
Definition StreamGreeting_new : StreamGreeting := mkStreamGreeting "" 0.

(** [int]: an increment beyond [INT_MAX] is undefined. *)
Definition INT_MAX : Z := 2147483647.

Inductive run (A : Type) :=
| Done (a : A)
| Undefined
| NoFuel.
Arguments Done {A} a.
Arguments Undefined {A}.
Arguments NoFuel {A}.

Inductive Status := OK.

Record ServerContext := mkServerContext {
  client_metadata : list (string * string);
  trailing_metadata : list (string * string)
}.

Record ClientContext := mkClientContext {
  metadata : list (string * string);
  server_trailing_metadata : list (string * string)
}.

(** [metadata.find(key)]: an entry with the key (the first of the list), or
    [end()] when there is none. *)
Fixpoint find (key : string) (metadata : list (string * string)) : option (string * string) :=
  match metadata with
  | [] => None
  | entry :: rest => if decide (entry.1 = key) then Some entry else find key rest
  end.

Definition AddTrailingMetadata (context : ServerContext) (key value : string) : ServerContext :=
  mkServerContext (client_metadata context) (trailing_metadata context ++ [(key, value)]).

(** [CheckServerContext]: the result of the [EXPECT_EQ] and the context with
    the trailing metadata added; [find(...)->second] on [end()] is undefined. *)
Definition CheckServerContext (context : ServerContext) : run (bool * ServerContext) :=
  match find "req_header" (client_metadata context) with
  | None => Undefined
  | Some entry =>
      Done (bool_decide (entry.2 = "value"),
            AddTrailingMetadata context "resp_header" "value")
  end.

(** What a method of the service leaves behind. *)
Record Call (A : Type) := mkCall {
  status : Status;
  response : A;
  written : list StreamGreeting;
  context_after : ServerContext;
  expectations : list bool
}.
Arguments mkCall {A} _ _ _ _ _.
Arguments status {A} _.
Arguments response {A} _.
Arguments written {A} _.
Arguments context_after {A} _.
Arguments expectations {A} _.

Definition SayHello (context : ServerContext) (request : Greeting) : run (Call Greeting) :=
  let checked :=
    if decide (g_name request ≠ "default_context") then
      match CheckServerContext context with
      | Done (held, context') => Done ([held], context')
      | Undefined => Undefined
      | NoFuel => NoFuel
      end
    else Done ([], context) in
  match checked with
  | Done (held, context') =>
      let prefix := "Hello " in
      Done (mkCall OK (mkGreeting (prefix +:+ g_name request)) [] context' held)
  | Undefined => Undefined
  | NoFuel => NoFuel
  end.

(** [for (auto i = 0; i < request->number(); ++i) { sg.set_number(i);
    writer->Write(sg); }] *)
Fixpoint ReadMany_for (fuel : nat) (i : Z) (request_number : Z) (sg : StreamGreeting)
    (writer : list StreamGreeting) : run (StreamGreeting * list StreamGreeting) :=
  if decide (i < request_number) then
    match fuel with
    | O => NoFuel
    | S fuel' =>
        let sg := set_number sg i in
        let writer := writer ++ [sg] in
        if decide (i < INT_MAX) then ReadMany_for fuel' (i + 1) request_number sg writer
        else Undefined
    end
  else Done (sg, writer).

Definition ReadMany (fuel : nat) (context : ServerContext) (request : StreamGreeting)
    : run (Call unit) :=
  match CheckServerContext context with
  | Done (held, context') =>
      let prefix := "Hello again " in
      let sg := set_name StreamGreeting_new (prefix +:+ sg_name request) in
      match ReadMany_for fuel 0 (sg_number request) sg [] with
      | Done (_, writer) => Done (mkCall OK tt writer context' [held])
      | Undefined => Undefined
      | NoFuel => NoFuel
      end
  | Undefined => Undefined
  | NoFuel => NoFuel
  end.

(** [while (reader->Read(&in)) { ++count; }] *)
Fixpoint WriteMany_while (reader : list StreamGreeting) (in_ : StreamGreeting) (count : Z)
    : run (StreamGreeting * Z) :=
  match reader with
  | [] => Done (in_, count)
  | message :: rest =>
      if decide (count < INT_MAX) then WriteMany_while rest message (count + 1)
      else Undefined
  end.

Definition WriteMany (context : ServerContext) (reader : list StreamGreeting)
    : run (Call StreamGreeting) :=
  match CheckServerContext context with
  | Done (held, context') =>
      match WriteMany_while reader StreamGreeting_new 0 with
      | Done (_, count) =>
          let response := set_number (set_name StreamGreeting_new "Hello blabber") count in
          Done (mkCall OK response [] context' [held])
      | Undefined => Undefined
      | NoFuel => NoFuel
      end
  | Undefined => Undefined
  | NoFuel => NoFuel
  end.

(** [while (stream->Read(&in)) { ++count; out.set_number(count);
    out.set_name(prefix + in.name()); stream->Write(out); }] *)
Fixpoint Chat_while (stream : list StreamGreeting) (in_ out : StreamGreeting) (count : Z)
    (writer : list StreamGreeting) : run (list StreamGreeting) :=
  match stream with
  | [] => Done writer
  | message :: rest =>
      if decide (count < INT_MAX) then
        let count := count + 1 in
        let out := set_number out count in
        let out := set_name out ("Hello " +:+ sg_name message) in
        Chat_while rest message out count (writer ++ [out])
      else Undefined
  end.

Definition Chat (context : ServerContext) (stream : list StreamGreeting) : run (Call unit) :=
  match CheckServerContext context with
  | Done (held, context') =>
      match Chat_while stream StreamGreeting_new StreamGreeting_new 0 [] with
      | Done writer => Done (mkCall OK tt writer context' [held])
      | Undefined => Undefined
      | NoFuel => NoFuel
      end
  | Undefined => Undefined
  | NoFuel => NoFuel
  end.

Definition PrepareClientContext : ClientContext :=
  mkClientContext [("req_header", "value")] [].

(** [CheckClientContext]: the result of its [EXPECT_EQ]. *)
Definition CheckClientContext (context : ClientContext) : run bool :=
  match find "resp_header" (server_trailing_metadata context) with
  | None => Undefined
  | Some entry => Done (bool_decide (entry.2 = "value"))
  end.

(** The replies the tests expect. *)
Definition ReadMany_reply (request : StreamGreeting) (i : Z) : StreamGreeting :=
  mkStreamGreeting ("Hello again " +:+ sg_name request) i.

Definition Chat_reply (i : nat) (message : StreamGreeting) : StreamGreeting :=
  mkStreamGreeting ("Hello " +:+ sg_name message) (Z.of_nat i + 1).

End grpc_test.

(** * engine::subprocess *)

Module subprocess.

(** ** Exceptions *)

Inductive exception :=
| system_error (code : Z) (context : string)
| runtime_error (what : string)
| ChildProcessStatusException (what : string).

(** ** Threads

    [task_processor.EventThreadPool().GetEvDefaultLoopThread()] is the one
    thread that runs the default event loop; every other thread is a worker
    of a task processor, on which cooperative tasks are carried. *)

Inductive thread :=
| EvDefaultLoopThread
| Worker (n : nat).

#[global] Instance thread_eq_dec : EqDecision thread.
Proof. solve_decision. Defined.

(** ** child_process_status.hpp *)

Inductive ExitReason := kExited | kSignaled.

#[global] Instance ExitReason_eq_dec : EqDecision ExitReason.
Proof. solve_decision. Defined.

Record ChildProcessStatus := mkChildProcessStatus {
  execution_time_ : Z;
  exit_reason_ : ExitReason;
  exit_code_ : Z;
  term_signal_ : Z
}.

Definition GetExitReason (s : ChildProcessStatus) : ExitReason := exit_reason_ s.

Definition IsExited (s : ChildProcessStatus) : bool :=
  bool_decide (exit_reason_ s = kExited).

Definition IsSignaled (s : ChildProcessStatus) : bool :=
  bool_decide (exit_reason_ s = kSignaled).

Definition GetExecutionTime (s : ChildProcessStatus) : Z := execution_time_ s.

(** Modelled from the spec: the bodies of [ChildProcessStatus::GetExitCode]
    and [ChildProcessStatus::GetTermSignal] (child_process_status.cpp is not
    among the sources; the header only declares them, with the comments
    "can be called if IsExited() returns true" and "can be called if
    IsSignaled() returns true", next to [ChildProcessStatusException]).
    Spec 4.3: "GetExitCode() called when not exited is a usage fault",
    "symmetric fault rule". *)
Definition GetExitCode (s : ChildProcessStatus) : exception + Z :=
  if IsExited s then inr (exit_code_ s)
  else inl (ChildProcessStatusException
              "Cannot get exit code of subprocess that was terminated by signal").

Definition GetTermSignal (s : ChildProcessStatus) : exception + Z :=
  if IsSignaled s then inr (term_signal_ s)
  else inl (ChildProcessStatusException
              "Cannot get terminate signal of subprocess that was exited normally").

(** ** Promises, futures and the handle

    A [Promise<T>] and the [Future<T>] obtained from it share one state, a
    cell of a store.  A default-constructed [Future<T>{}] has no state. *)

Inductive shared_state (A : Type) :=
| NotReady
| Ready (a : A)
| Failed (e : exception).
Arguments NotReady {A}.
Arguments Ready {A} a.
Arguments Failed {A} e.

Abbreviation Promise := nat.
Abbreviation Future := (option nat).

Record ChildProcessImpl := mkChildProcessImpl {
  pid_ : Z;
  status_future_ : Future
}.

(** [ChildProcess] owns a [std::unique_ptr<ChildProcessImpl>]. *)
Abbreviation ChildProcess := ChildProcessImpl.

(** [ev::ChildProcessMapValue]: the source reads its [status_promise]. *)
Record ChildProcessMapValue := mkChildProcessMapValue {
  status_promise : Promise
}.

(** ** Environment ([std::unordered_map<std::string, std::string>]) *)

Abbreviation EnvironmentVariables := (gmap string string).
Abbreviation EnvironmentVariablesUpdate := (gmap string string).

(** ** The trace

    Every call that leaves the code is recorded with the thread that made it:
    log records, span tags, the system calls, [freopen], [abort], the calls
    to the registry with their result, and an exception that left a function
    run by an event loop. *)

Inductive LogLevel := kDebug | kError.

Inductive stdio_stream := stdout | stderr.

Inductive event :=
| Log (level : LogLevel) (text : string)
| SpanTag (key value : string)
| SysFork (ret : Z)
| SysKill (pid sig : Z)
| Freopen (path mode : string) (stream : stdio_stream)
| SysExecve (path : string) (argv envp : list string)
| SysAbort
| RegistrySet (pid : Z) (inserted : bool)
| Escaped (e : exception).

#[global] Instance exception_eq_dec : EqDecision exception.
Proof. solve_decision. Defined.
#[global] Instance LogLevel_eq_dec : EqDecision LogLevel.
Proof. solve_decision. Defined.
#[global] Instance stdio_stream_eq_dec : EqDecision stdio_stream.
Proof. solve_decision. Defined.
#[global] Instance event_eq_dec : EqDecision event.
Proof. solve_decision. Defined.

(** ** The kernel's answers

    [fork] returns twice, and the state passed along is that of the process
    that sees the value: with [fork_ret = 0] the code that follows is the
    child's, on its copy of the state. *)

Record Kernel := mkKernel {
  fork_ret : Z;                (* -1, 0 in the child, the child's pid in the parent *)
  fork_errno : Z;
  execve_ret : option Z;       (* None: the image was replaced *)
  execve_errno : Z
}.

(** ** Functions handed to an event-loop thread

    The only function the source hands over is the lambda of
    [ProcessStarter::Exec]; it is kept as its captured variables ([&]: the
    promise and the arguments of [Exec]) and the answers the kernel gives
    while it runs. *)

Record work_item := mkWorkItem {
  w_kernel : Kernel;
  w_promise : Promise;
  w_command : string;
  w_args : list string;
  w_env : gmap string string;
  w_stdout_file : option string;
  w_stderr_file : option string
}.

(** ** The process state *)

Record State := mkState {
  child_process_map : gmap Z ChildProcessMapValue;
  status_states : gmap nat (shared_state ChildProcessStatus);
  exec_states : gmap nat (shared_state ChildProcess);
  environ : gmap string string;
  errno : Z;
  ev_queue : list (thread * work_item);
  events : list (thread * event)
}.

Definition set_child_process_map (f : gmap Z ChildProcessMapValue → gmap Z ChildProcessMapValue)
    (st : State) : State :=
  mkState (f (child_process_map st)) (status_states st) (exec_states st)
          (environ st) (errno st) (ev_queue st) (events st).

Definition set_status_states
    (f : gmap nat (shared_state ChildProcessStatus) → gmap nat (shared_state ChildProcessStatus))
    (st : State) : State :=
  mkState (child_process_map st) (f (status_states st)) (exec_states st)
          (environ st) (errno st) (ev_queue st) (events st).

Definition set_exec_states
    (f : gmap nat (shared_state ChildProcess) → gmap nat (shared_state ChildProcess))
    (st : State) : State :=
  mkState (child_process_map st) (status_states st) (f (exec_states st))
          (environ st) (errno st) (ev_queue st) (events st).

Definition set_errno (e : Z) (st : State) : State :=
  mkState (child_process_map st) (status_states st) (exec_states st)
          (environ st) e (ev_queue st) (events st).

Definition set_ev_queue (f : list (thread * work_item) → list (thread * work_item))
    (st : State) : State :=
  mkState (child_process_map st) (status_states st) (exec_states st)
          (environ st) (errno st) (f (ev_queue st)) (events st).

Definition add_event (t : thread) (e : event) (st : State) : State :=
  mkState (child_process_map st) (status_states st) (exec_states st)
          (environ st) (errno st) (ev_queue st) (events st ++ [(t, e)]).

(** ** The monad *)

Inductive outcome (A : Type) :=
| Ret (a : A)
| Throw (e : exception)
| Aborted
| Replaced
| Blocked.
Arguments Ret {A} a.
Arguments Throw {A} e.
Arguments Aborted {A}.
Arguments Replaced {A}.
Arguments Blocked {A}.

Definition M (A : Type) : Type := thread → State → State * outcome A.

#[global] Instance M_ret : MRet M := λ A a _ st, (st, Ret a).

#[global] Instance M_bind : MBind M := λ A B f m t st,
  match m t st with
  | (st', Ret a) => f a t st'
  | (st', Throw e) => (st', Throw e)
  | (st', Aborted) => (st', Aborted)
  | (st', Replaced) => (st', Replaced)
  | (st', Blocked) => (st', Blocked)
  end.

Definition finish {A} (o : outcome A) : M A := λ _ st, (st, o).
Definition throw {A} (e : exception) : M A := λ _ st, (st, Throw e).
Definition get {A} (f : State → A) : M A := λ _ st, (st, Ret (f st)).
Definition modify (f : State → State) : M unit := λ _ st, (f st, Ret tt).
Definition emit (e : event) : M unit := λ t st, (add_event t e st, Ret tt).

(** ** Kernel, libc, logging and tracing *)

Definition fork (k : Kernel) : M Z :=
  emit (SysFork (fork_ret k));;
  (if decide (fork_ret k = -1) then modify (set_errno (fork_errno k)) else mret tt);;
  mret (fork_ret k).

(** [execve] returns only when it fails. *)
Definition execve (k : Kernel) (path : string) (argv envp : list string) : M Z :=
  emit (SysExecve path argv envp);;
  match execve_ret k with
  | None => finish Replaced
  | Some r => modify (set_errno (execve_errno k));; mret r
  end.

Definition abort {A} : M A := λ t st, (add_event t SysAbort st, Aborted).

Definition freopen (path mode : string) (stream : stdio_stream) : M unit :=
  emit (Freopen path mode stream).

Definition LOG (level : LogLevel) (text : string) : M unit := emit (Log level text).

Definition AddTag (key value : string) : M unit := emit (SpanTag key value).

Definition SIGKILL : Z := 9.

(** [std::to_string] on an [int]. *)
Definition to_string (n : Z) : string := pretty n.

(** [boost::join]. *)
Definition join (l : list string) (sep : string) : string := String.concat sep l.

(** Modelled from the spec: [utils::CheckSyscall] (utils/check_syscall.hpp is
    not among the sources).  It passes a system call's result through and
    raises the OS error when the call failed, that is returned -1; spec 7:
    "fork() fails ... surfaced as a failed spawn future carrying the OS
    error".  The source relies on it: behind [CheckSyscall(fork(), "fork")]
    every non-zero result is taken for the pid of a child. *)
Definition CheckSyscall (r : Z) (context : string) : M Z :=
  if decide (r = -1) then e ← get errno; throw (system_error e context)
  else mret r.

(** ** Promises

    Modelled from the spec: [Promise<T>] and [Future<T>] (engine/future.hpp is
    not among the sources).  Spec 6: "a one-shot, cross-thread-safe completion
    primitive"; the source uses [get_future], [set_value], [set_exception]
    and [get]. *)

Definition new_status_promise : M Promise := λ _ st,
  let p := fresh (dom (status_states st)) in
  (set_status_states <[p := NotReady]> st, Ret p).

(** A promise that is destroyed lets go of its shared state. *)
Definition destroy_status_promise (p : Promise) : M unit :=
  modify (set_status_states (delete p)).

Definition get_future (p : Promise) : Future := Some p.

Definition set_value (p : Promise) (v : ChildProcess) : M unit :=
  modify (set_exec_states <[p := Ready v]>).

Definition set_exception (p : Promise) (e : exception) : M unit :=
  modify (set_exec_states <[p := Failed e]>).

(** [Promise<ChildProcess> promise; ...] up to the end of the scope, left by
    a return or by an exception. *)
Definition with_promise {A} (body : Promise → M A) : M A := λ t st,
  let p := fresh (dom (exec_states st)) in
  match body p t (set_exec_states <[p := NotReady]> st) with
  | (st', Ret a) => (set_exec_states (delete p) st', Ret a)
  | (st', Throw e) => (set_exec_states (delete p) st', Throw e)
  | r => r
  end.

(** ** The registry *)

(** Modelled from the spec: [ev::ChildProcessMapSet] (engine/ev/child_process_map
    is not among the sources).  Spec 4.2: "TryRegister(pid) -> PendingSlot |
    AlreadyExists: atomic test-and-set; fails if an entry for that pid is
    already present"; the source reads the result as a pair of the entry now
    in the map and whether the insertion took place. *)
Definition ChildProcessMapSet (pid : Z) (value : ChildProcessMapValue)
    : M (ChildProcessMapValue * bool) := λ t st,
  match child_process_map st !! pid with
  | Some present => (add_event t (RegistrySet pid false) st, Ret (present, false))
  | None =>
      (add_event t (RegistrySet pid true) (set_child_process_map <[pid := value]> st),
       Ret (value, true))
  end.

(** ** The handle *)

(** Modelled from the spec: [ChildProcessImpl::SendSignal] (child_process_impl
    is not among the sources).  Spec 4.4: "delivers an OS signal to the bound
    pid". *)
Definition SendSignal (self : ChildProcessImpl) (signum : Z) : M unit :=
  emit (SysKill (pid_ self) signum).

(** ** The environment *)

(** Modelled from the spec: [GetCurrentEnvironmentVariables]
    (engine/subprocess/environment_variables is not among the sources): "the
    currently inherited environment". *)
Definition GetCurrentEnvironmentVariables : M EnvironmentVariables := get environ.

(** Modelled from the spec: [EnvironmentVariables::UpdateWith] (same missing
    file).  Spec 3: "an update overlay onto the currently inherited
    environment (existing keys replaced, new keys added, others retained
    unchanged)"; process_starter.hpp: "Variables from env_update will be added
    to current environment. Existing values will be replaced." *)
Definition UpdateWith (self : EnvironmentVariables) (env_update : EnvironmentVariablesUpdate)
    : EnvironmentVariables :=
  map_fold (λ key value vars, <[key := value]> vars) self env_update.

(** ** process_starter.cpp *)

Definition key_value (elem : string * string) : string := elem.1 +:+ "=" +:+ elem.2.

(** [freopen] and [execve] are given [c_str()] pointers into the strings.
    The trace records the strings pointed into; what the callee reads of one
    is its [c_str], defined with the vocabulary below. *)
Definition DoExecve (k : Kernel) (command : string) (args : list string)
    (env : EnvironmentVariables) (stdout_file stderr_file : option string) : M unit :=
  (if stdout_file is Some f then freopen f "at" stdout else mret tt);;
  (if stderr_file is Some f then freopen f "at" stderr else mret tt);;
  let argv_ptrs := [command] ++ args in
  let envp_buf := key_value <$> map_to_list env in
  r ← execve k command argv_ptrs envp_buf;
  CheckSyscall r "execve";;
  (* on success execve does not return *)
  abort.

(** The text of the first [LOG_DEBUG()] of the lambda. *)
Definition request_text (command : string) (args : list string)
    (env : EnvironmentVariables) : string :=
  "do fork() + execve(), command=" +:+ command +:+ ", args=["
  +:+ (if args is [] then "" else "'" +:+ join args "' '" +:+ "'")
  +:+ "], env=["
  +:+ (if decide (env = ∅) then ""
       else join (key_value <$> map_to_list env) ", ")
  +:+ "]".

(** [msg] of the branch taken when the pid is already registered. *)
Definition collision_msg (pid : Z) : string :=
  "process with pid=" +:+ to_string pid +:+ " already exists in child_process_map".

(** The lambda that [Exec] hands to the event-loop thread. *)
Definition Exec_lambda (w : work_item) : M unit :=
  let k := w_kernel w in
  let promise := w_promise w in
  let command := w_command w in
  let args := w_args w in
  let env := w_env w in
  LOG kDebug (request_text command args env);;
  r ← fork k;
  pid ← CheckSyscall r "fork";
  if decide (pid ≠ 0) then
    (* in parent thread *)
    AddTag "child-process-pid" (to_string pid);;
    LOG kDebug ("Started child process with pid=" +:+ to_string pid);;
    exec_result_promise ← new_status_promise;
    '(res_first, res_second) ←
      ChildProcessMapSet pid (mkChildProcessMapValue exec_result_promise);
    if (res_second : bool) then
      set_value promise
        (mkChildProcessImpl pid (get_future (status_promise res_first)))
    else
      (* the temporary map value was not moved from: the promise in it went
         with it at the end of the statement above *)
      destroy_status_promise exec_result_promise;;
      let msg := collision_msg pid in
      LOG kError (msg +:+ ", send SIGKILL");;
      SendSignal (mkChildProcessImpl pid None) SIGKILL;;
      set_exception promise (runtime_error msg)
  else
    (* in child thread *)
    DoExecve k command args env (w_stdout_file w) (w_stderr_file w).

(** ** The event-loop thread and the suspension of a task *)

Abbreviation ThreadControl := thread.

Inductive TaskProcessor := task_processor (name : string).

(** Modelled from the spec: [TaskProcessor::EventThreadPool()] and
    [ThreadPool::GetEvDefaultLoopThread()] (engine/task/task_processor and
    engine/ev/thread_pool are not among the sources).  Spec 5: "exactly one
    additional thread is designated to perform operations with OS-level
    thread-safety constraints". *)
Definition GetEvDefaultLoopThread (tp : TaskProcessor) : ThreadControl :=
  EvDefaultLoopThread.

(** Modelled from the spec: [ev::ThreadControl::RunInEvLoopAsync]
    (engine/ev/thread_control is not among the sources).  Spec 4.1: the task
    "submits the fork-and-register sequence as a unit of work to that
    thread"; the call returns at once. *)
Definition RunInEvLoopAsync (self : ThreadControl) (func : work_item) : M unit :=
  modify (set_ev_queue (λ q, q ++ [(self, func)])).

(** Modelled from the spec: the loop of an event thread (engine/ev/thread is
    not among the sources).  Spec 5: "Spawn requests always funnel through
    that one thread, serializing the fork+register sequence".  The loop takes
    the queued functions in order and runs each to its end on the thread it
    was queued for.  An exception that leaves a function cannot reach the
    task that queued it, which gave the loop nothing but the function: it is
    recorded in the trace, and the loop goes on.  After [abort()] or a
    successful [execve] this process runs nothing more. *)
Fixpoint run_funcs (q : list (thread * work_item)) (st : State) : State * outcome unit :=
  match q with
  | [] => (st, Ret tt)
  | (t, w) :: q' =>
      match Exec_lambda w t st with
      | (st', Ret _) => run_funcs q' st'
      | (st', Throw e) => run_funcs q' (add_event t (Escaped e) st')
      | (st', o) => (st', o)
      end
  end.

Definition run_ev_loop : M unit := λ _ st,
  run_funcs (ev_queue st) (set_ev_queue (λ _, []) st).

(** Modelled from the spec: [Future<T>::get] (engine/future.hpp is not among
    the sources).  Spec 5: "the calling task suspends when it submits the
    fork-and-register unit of work; it resumes when the cross-thread one-shot
    completion primitive is fulfilled by that designated thread".  While the
    task is suspended the event thread works through its queue; the task
    resumes with the value or the exception of the shared state, and stays
    suspended when the state was not set. *)
Definition Future_get (state : nat) : M ChildProcess :=
  run_ev_loop;;
  s ← get (λ st, exec_states st !! state);
  match s with
  | Some (Ready v) => mret v
  | Some (Failed e) => throw e
  | _ => finish Blocked
  end.

(** ** ProcessStarter *)

Record ProcessStarter := mkProcessStarter {
  thread_control_ : ThreadControl
}.

Definition ProcessStarter_new (tp : TaskProcessor) : ProcessStarter :=
  mkProcessStarter (GetEvDefaultLoopThread tp).

(** [Exec(command, args, env, stdout_file, stderr_file)]: [env] redefines all
    environment variables. *)
Definition Exec (self : ProcessStarter) (k : Kernel) (command : string)
    (args : list string) (env : EnvironmentVariables)
    (stdout_file stderr_file : option string) : M ChildProcess :=
  AddTag "command" command;;
  with_promise (λ promise,
    (* future = promise.get_future() *)
    RunInEvLoopAsync (thread_control_ self)
      (mkWorkItem k promise command args env stdout_file stderr_file);;
    Future_get promise).

(** [Exec(command, args, env_update, stdout_file, stderr_file)]. *)
Definition Exec_env_update (self : ProcessStarter) (k : Kernel) (command : string)
    (args : list string) (env_update : EnvironmentVariablesUpdate)
    (stdout_file stderr_file : option string) : M ChildProcess :=
  current ← GetCurrentEnvironmentVariables;
  Exec self k command args (UpdateWith current env_update) stdout_file stderr_file.

(** [Exec(command, args, stdout_file, stderr_file)]: the current environment. *)
Definition Exec_current_env (self : ProcessStarter) (k : Kernel) (command : string)
    (args : list string) (stdout_file stderr_file : option string) : M ChildProcess :=
  Exec_env_update self k command args ∅ stdout_file stderr_file.

(** The three request shapes of spec 6, [env: FullEnv | EnvUpdate |
    Inherited], each sent to its overload. *)
Inductive EnvArg :=
| FullEnv (env : EnvironmentVariables)
| EnvUpdate (env_update : EnvironmentVariablesUpdate)
| Inherited.

Definition Exec_any (self : ProcessStarter) (k : Kernel) (command : string)
    (args : list string) (env : EnvArg)
    (stdout_file stderr_file : option string) : M ChildProcess :=
  match env with
  | FullEnv e => Exec self k command args e stdout_file stderr_file
  | EnvUpdate u => Exec_env_update self k command args u stdout_file stderr_file
  | Inherited => Exec_current_env self k command args stdout_file stderr_file
  end.

(** * Vocabulary of the statements *)

(** Several calls in a row, all on thread [t]. *)
Definition add_events (t : thread) (l : list event) (st : State) : State :=
  foldl (λ s e, add_event t e s) st l.

(** The [freopen] that [DoExecve] makes for one stream, if any. *)
Definition reopen (file : option string) (stream : stdio_stream) : list event :=
  match file with
  | Some f => [Freopen f "at" stream]
  | None => []
  end.

(** The calls of [DoExecve] up to and including [execve]. *)
Definition DoExecve_calls (command : string) (args : list string)
    (env : EnvironmentVariables) (stdout_file stderr_file : option string) : list event :=
  reopen stdout_file stdout ++ reopen stderr_file stderr
  ++ [SysExecve command ([command] ++ args) (key_value <$> map_to_list env)].

(** The calls of the lambda before it looks at what [fork] returned. *)
Definition lambda_start (w : work_item) : list event :=
  [Log kDebug (request_text (w_command w) (w_args w) (w_env w));
   SysFork (fork_ret (w_kernel w))].

(** Its first calls in the parent. *)
Definition lambda_parent (pid : Z) : list event :=
  [SpanTag "child-process-pid" (to_string pid);
   Log kDebug ("Started child process with pid=" +:+ to_string pid)].

(** Its calls from the refused registration on. *)
Definition collision_calls (pid : Z) : list event :=
  [RegistrySet pid false;
   Log kError (collision_msg pid +:+ ", send SIGKILL");
   SysKill pid SIGKILL].

(** What the task gets when it resumes on the shared state [p], at the end
    of the scope of the promise. *)
Definition resume (p : nat) (st : State) : State * outcome ChildProcess :=
  match exec_states st !! p with
  | Some (Ready v) => (set_exec_states (delete p) st, Ret v)
  | Some (Failed e) => (set_exec_states (delete p) st, Throw e)
  | _ => (st, Blocked)
  end.

(** The state in which the calling task is suspended: the span is tagged,
    the promise exists, and the loop has taken the queue. *)
Definition Exec_entered (command : string) (t : thread) (st : State) : State :=
  set_ev_queue (λ _, [])
    (set_exec_states <[fresh (dom (exec_states st)) := NotReady]>
       (add_event t (SpanTag "command" command) st)).

(** [st1] is the state in which the event thread starts the function of this
    call: the functions queued before it have run. *)
Definition earlier_funcs_run (command : string) (t : thread) (st st1 : State) : Prop :=
  run_funcs (ev_queue st) (Exec_entered command t st) = (st1, Ret tt).






(** The inheriting form in the words of the spec: "Inherited passes the
    current process environment through unchanged". *)
Definition Exec_inherited_spec (self : ProcessStarter) (k : Kernel) (command : string)
    (args : list string) (stdout_file stderr_file : option string) : M ChildProcess :=
  current ← GetCurrentEnvironmentVariables;
  Exec self k command args current stdout_file stderr_file.

(** The environment that reaches the full form of [Exec]. *)
Definition resolved_env (env : EnvArg) (st : State) : EnvironmentVariables :=
  match env with
  | FullEnv e => e
  | EnvUpdate u => UpdateWith (environ st) u
  | Inherited => UpdateWith (environ st) ∅
  end.

(** Calls to [fork] and to the registry. *)
Definition fork_or_register (e : event) : bool :=
  match e with
  | SysFork _ | RegistrySet _ _ => true
  | _ => false
  end.

(** The calls to [fork] and to the registry among [l], in order. *)
Definition forks_and_registrations (l : list event) : list event :=
  filter (λ e, fork_or_register e) l.

(** One [fork] at a time: each [fork] that returned a child pid is followed
    at once by the registration of that pid, before the next [fork]. *)
Inductive serialized : list event → Prop :=
| serialized_nil : serialized []
| serialized_no_child r l :
    r = -1 ∨ r = 0 → serialized l → serialized (SysFork r :: l)
| serialized_registered pid inserted l :
    pid ≠ -1 → pid ≠ 0 → serialized l →
    serialized (SysFork pid :: RegistrySet pid inserted :: l).

(** Every registry entry holds a promise whose shared state exists, and no
    two entries hold the same one. *)
Definition registry_wf (st : State) : Prop :=
  (∀ pid v, child_process_map st !! pid = Some v →
     is_Some (status_states st !! status_promise v))
  ∧ (∀ pid1 pid2 v1 v2,
       child_process_map st !! pid1 = Some v1 →
       child_process_map st !! pid2 = Some v2 →
       status_promise v1 = status_promise v2 → pid1 = pid2).

Definition is_kill (e : event) : bool :=
  match e with SysKill _ _ => true | _ => false end.

Definition is_fork (e : event) : bool :=
  match e with SysFork _ => true | _ => false end.

Definition is_execve_call (e : event) : bool :=
  match e with SysExecve _ _ _ => true | _ => false end.

Definition is_abort (e : event) : bool :=
  match e with SysAbort => true | _ => false end.

(** The calls of one kind among [l], in order. *)
Definition calls_of (kind : event → bool) (l : list event) : list event :=
  filter (λ e, kind e) l.

(** Does the string hold the character [=]? *)
Fixpoint has_equals (s : string) : bool :=
  match s with
  | EmptyString => false
  | String c s' => if bool_decide (String c "" = "=") then true else has_equals s'
  end.

(** [std::string::c_str()] as its reader sees it: [execve] and [freopen] get
    pointers and read each string up to its first NUL character. *)
Fixpoint c_str (s : string) : string :=
  match s with
  | EmptyString => ""
  | String c s' => if decide (c = Ascii.zero) then "" else String c (c_str s')
  end.

(** The string holds a NUL character. *)
Fixpoint has_nul (s : string) : bool :=
  match s with
  | EmptyString => false
  | String c s' => bool_decide (c = Ascii.zero) || has_nul s'
  end.

(** * Sample inputs *)

Definition sample_environ : gmap string string :=
  <["PATH" := "/bin"]> (<["HOME" := "/root"]> ∅).

(** Nothing registered, nothing queued. *)
Definition idle : State := mkState ∅ ∅ ∅ sample_environ 0 [] [].

(** The pid 4242 is still registered (its status was not delivered yet). *)
Definition stale : State :=
  mkState (<[4242 := mkChildProcessMapValue 0%nat]> ∅) (<[0%nat := NotReady]> ∅) ∅
          sample_environ 0 [] [].

Definition in_parent : Kernel := mkKernel 4242 0 None 0.

Definition in_child : Kernel := mkKernel 0 0 None 0.

Definition ENOENT : Z := 2.

Definition EAGAIN : Z := 11.

(** In the child, [execve] fails: no such file. *)
Definition in_child_no_such_file : Kernel := mkKernel 0 0 (Some (-1)) ENOENT.

(** [fork] fails: the process limit is reached. *)
Definition fork_refused : Kernel := mkKernel (-1) EAGAIN None 0.

Definition starter : ProcessStarter := ProcessStarter_new (task_processor "main-task-processor").

Definition signaled_by_kill : ChildProcessStatus := mkChildProcessStatus 15 kSignaled (-1) 9.

Definition exited_with_3 : ChildProcessStatus := mkChildProcessStatus 15 kExited 3 (-1).

(** Another task has called [Exec] for [/bin/true]; its function is still
    in the queue of the event thread. *)
Definition busy : State :=
  mkState ∅ ∅ (<[0%nat := NotReady]> ∅) sample_environ 0
          [(EvDefaultLoopThread,
            mkWorkItem (mkKernel 4100 0 None 0) 0%nat "/bin/true" [] ∅ None None)]
          [(Worker 1, SpanTag "command" "/bin/true")].

(** * Properties *)

(** ** States and traces *)

#[local] Arguments to_string : simpl never.
#[local] Arguments collision_msg : simpl never.
#[local] Arguments request_text : simpl never.
#[local] Arguments String.append : simpl never.

Ltac unfold_M :=
  unfold mbind, M_bind, mret, M_ret, finish, throw, get, modify, emit,
    freopen, LOG, AddTag, abort in *.

Lemma State_eq (s1 s2 : State) :
  child_process_map s1 = child_process_map s2 →
  status_states s1 = status_states s2 →
  exec_states s1 = exec_states s2 →
  environ s1 = environ s2 →
  errno s1 = errno s2 →
  ev_queue s1 = ev_queue s2 →
  events s1 = events s2 →
  s1 = s2.
Proof. destruct s1, s2; simpl; intros; by subst. Qed.

Lemma events_add_events t l st :
  events (add_events t l st) = events st ++ ((λ e, (t, e)) <$> l).
Proof.
  unfold add_events. revert st. induction l as [|e l IH]; intros st; simpl.
  - by rewrite app_nil_r.
  - rewrite IH. simpl. by rewrite <- app_assoc.
Qed.

#[local] Arguments add_events : simpl never.

Lemma child_process_map_add_events t l st :
  child_process_map (add_events t l st) = child_process_map st.
Proof.
  unfold add_events. revert st.
  induction l as [|e l IH]; intros st; simpl; [done|by rewrite IH].
Qed.

Lemma status_states_add_events t l st :
  status_states (add_events t l st) = status_states st.
Proof.
  unfold add_events. revert st.
  induction l as [|e l IH]; intros st; simpl; [done|by rewrite IH].
Qed.

Lemma exec_states_add_events t l st :
  exec_states (add_events t l st) = exec_states st.
Proof.
  unfold add_events. revert st.
  induction l as [|e l IH]; intros st; simpl; [done|by rewrite IH].
Qed.

Lemma ev_queue_add_events t l st : ev_queue (add_events t l st) = ev_queue st.
Proof.
  unfold add_events. revert st.
  induction l as [|e l IH]; intros st; simpl; [done|by rewrite IH].
Qed.

(** ** DoExecve *)

Lemma DoExecve_run k command args env stdout_file stderr_file t st :
  DoExecve k command args env stdout_file stderr_file t st =
  let st1 := add_events t (DoExecve_calls command args env stdout_file stderr_file) st in
  match execve_ret k with
  | None => (st1, Replaced)
  | Some r =>
      if decide (r = -1)
      then (set_errno (execve_errno k) st1, Throw (system_error (execve_errno k) "execve"))
      else (add_event t SysAbort (set_errno (execve_errno k) st1), Aborted)
  end.
Proof.
  unfold DoExecve, DoExecve_calls, execve, CheckSyscall, reopen.
  destruct stdout_file, stderr_file, (execve_ret k) as [r|]; unfold_M;
    try reflexivity; cbn; destruct (decide (r = -1)); reflexivity.
Qed.

(** ** The lambda of Exec, branch by branch *)

Lemma Exec_lambda_fork_failed w t st :
  fork_ret (w_kernel w) = -1 →
  Exec_lambda w t st =
  (set_errno (fork_errno (w_kernel w)) (add_events t (lambda_start w) st),
   Throw (system_error (fork_errno (w_kernel w)) "fork")).
Proof.
  intros Hf. unfold Exec_lambda, fork, CheckSyscall, lambda_start. unfold_M.
  rewrite Hf. reflexivity.
Qed.

Lemma Exec_lambda_child w t st :
  fork_ret (w_kernel w) = 0 →
  Exec_lambda w t st =
  DoExecve (w_kernel w) (w_command w) (w_args w) (w_env w)
           (w_stdout_file w) (w_stderr_file w) t (add_events t (lambda_start w) st).
Proof.
  intros Hf. unfold Exec_lambda, fork, CheckSyscall, lambda_start. unfold_M.
  rewrite Hf. reflexivity.
Qed.

Lemma Exec_lambda_registered w t st :
  let pid := fork_ret (w_kernel w) in
  let p := fresh (dom (status_states st)) in
  pid ≠ -1 → pid ≠ 0 → child_process_map st !! pid = None →
  Exec_lambda w t st =
  (set_exec_states <[w_promise w := Ready (mkChildProcessImpl pid (Some p))]>
     (set_child_process_map <[pid := mkChildProcessMapValue p]>
        (set_status_states <[p := NotReady]>
           (add_events t (lambda_start w ++ lambda_parent pid ++ [RegistrySet pid true])
              st))),
   Ret tt).
Proof.
  intros pid p H1 H0 Hm.
  unfold Exec_lambda, fork, CheckSyscall, lambda_start, lambda_parent,
    new_status_promise, ChildProcessMapSet, set_value. unfold_M.
  fold pid. rewrite !(decide_False (P := pid = -1)) by done.
  rewrite (decide_True (P := pid ≠ 0)) by done.
  cbn. rewrite Hm. reflexivity.
Qed.

Lemma fresh_status_state (m : gmap nat (shared_state ChildProcessStatus)) :
  m !! fresh (dom m) = None.
Proof. apply not_elem_of_dom, is_fresh. Qed.

Lemma Exec_lambda_collision w t st present :
  let pid := fork_ret (w_kernel w) in
  pid ≠ -1 → pid ≠ 0 → child_process_map st !! pid = Some present →
  Exec_lambda w t st =
  (set_exec_states <[w_promise w := Failed (runtime_error (collision_msg pid))]>
     (add_events t (lambda_start w ++ lambda_parent pid ++ collision_calls pid) st),
   Ret tt).
Proof.
  intros pid H1 H0 Hm.
  unfold Exec_lambda, fork, CheckSyscall, lambda_start, lambda_parent, collision_calls,
    new_status_promise, ChildProcessMapSet, set_exception, destroy_status_promise,
    SendSignal. unfold_M.
  fold pid. rewrite !(decide_False (P := pid = -1)) by done.
  rewrite (decide_True (P := pid ≠ 0)) by done.
  cbn. rewrite Hm. cbn.
  apply (f_equal (λ s, (s, Ret ()))), State_eq; cbn; try reflexivity.
  apply delete_insert_id, fresh_status_state.
Qed.

(** ** The event loop *)

Lemma run_funcs_app q q' st st1 :
  run_funcs q st = (st1, Ret tt) →
  run_funcs (q ++ q') st = run_funcs q' st1.
Proof.
  revert st. induction q as [|[t w] q IH]; intros st H; simpl in *.
  - by inversion H.
  - destruct (Exec_lambda w t st) as [st' [[]|e| | |]]; try done; by apply IH.
Qed.

Lemma Exec_run self k command args env stdout_file stderr_file t st st1 :
  earlier_funcs_run command t st st1 →
  let p := fresh (dom (exec_states st)) in
  let w := mkWorkItem k p command args env stdout_file stderr_file in
  Exec self k command args env stdout_file stderr_file t st =
  match Exec_lambda w (thread_control_ self) st1 with
  | (st2, Ret _) => resume p st2
  | (st2, Throw e) => resume p (add_event (thread_control_ self) (Escaped e) st2)
  | (st2, Aborted) => (st2, Aborted)
  | (st2, Replaced) => (st2, Replaced)
  | (st2, Blocked) => (st2, Blocked)
  end.
Proof.
  intros Hq p w.
  unfold Exec, with_promise, RunInEvLoopAsync, Future_get, run_ev_loop. unfold_M.
  cbn. fold p. fold w.
  change (mkState _ _ _ _ _ _ _) with (Exec_entered command t st).
  rewrite (run_funcs_app _ _ _ _ Hq). simpl.
  destruct (Exec_lambda w (thread_control_ self) st1) as [st2 [[]|e| | |]];
    try reflexivity; unfold resume; cbn.
  - destruct (exec_states st2 !! p) as [[]|]; reflexivity.
  - destruct (exec_states st2 !! p) as [[]|]; reflexivity.
Qed.

(** ** ChildProcessStatus *)

(** C9: for every status, [GetExitCode] when [IsExited] is false and
    [GetTermSignal] when [IsSignaled] is false raise
    [ChildProcessStatusException]; neither ever answers with a number in that
    case, so a number returned by [GetExitCode] (by [GetTermSignal]) implies
    that the status is exited (signaled). *)
Theorem wrong_accessor_faults (s : ChildProcessStatus) :
  (IsExited s = false →
     (∃ what, GetExitCode s = inl (ChildProcessStatusException what))
     ∧ ∀ v, GetExitCode s ≠ inr v)
  ∧ (IsSignaled s = false →
     (∃ what, GetTermSignal s = inl (ChildProcessStatusException what))
     ∧ ∀ v, GetTermSignal s ≠ inr v).
Proof.
  unfold GetExitCode, GetTermSignal.
  split; intros ->; (split; [eexists; reflexivity | discriminate]).
Qed.

Lemma wrong_accessor_faults_witness :
  (IsExited signaled_by_kill = false ∧ IsSignaled exited_with_3 = false)
  ∧ (∃ what, GetExitCode signaled_by_kill = inl (ChildProcessStatusException what))
  ∧ (∃ what, GetTermSignal exited_with_3 = inl (ChildProcessStatusException what)).
Proof.
  split; [split; reflexivity|]. split.
  - exact (proj1 (proj1 (wrong_accessor_faults signaled_by_kill) eq_refl)).
  - exact (proj1 (proj2 (wrong_accessor_faults exited_with_3) eq_refl)).
Defined.

(** ** The child: stdio redirection and execve *)

Ltac elem_cases H :=
  repeat first
    [ apply elem_of_nil in H; destruct H
    | apply elem_of_cons in H as [H|H]
    | apply elem_of_app in H as [H|H] ].

Lemma elem_of_reopen e file s :
  e ∈ reopen file s → ∃ f, file = Some f ∧ e = Freopen f "at" s.
Proof. destruct file as [f|]; simpl; intros He; elem_cases He; eauto. Qed.


Lemma Exec_lambda_child_events w t st :
  fork_ret (w_kernel w) = 0 →
  ∃ tail,
    events (Exec_lambda w t st).1 =
      events st ++ ((λ e, (t, e)) <$>
        (lambda_start w
         ++ DoExecve_calls (w_command w) (w_args w) (w_env w)
              (w_stdout_file w) (w_stderr_file w)
         ++ tail))
    ∧ (tail = [] ∨ tail = [SysAbort]).
Proof.
  intros Hf. rewrite Exec_lambda_child, DoExecve_run by done. cbv zeta.
  destruct (execve_ret (w_kernel w)) as [r|]; [destruct (decide (r = -1))|];
    cbn [fst events set_errno add_event]; rewrite !events_add_events.
  - exists []. rewrite app_nil_r, fmap_app, app_assoc. auto.
  - exists [SysAbort]. rewrite !fmap_app, <- !app_assoc. auto.
  - exists []. rewrite app_nil_r, fmap_app, app_assoc. auto.
Qed.


(** C3 (the code departs from it): when [execve] fails, i.e. returns -1,
    [CheckSyscall] raises [system_error] and the [abort()] behind it is not
    reached: [DoExecve] is left by the exception, no [abort] is among its
    calls, and in the child the exception leaves the lambda of [Exec]. *)
Theorem execve_failure_raises_instead_of_abort (fork_errno0 execve_errno0 : Z)
    (promise : Promise) (command : string) (args : list string)
    (env : EnvironmentVariables) (stdout_file stderr_file : option string)
    (t : thread) (st : State) :
  let k := mkKernel 0 fork_errno0 (Some (-1)) execve_errno0 in
  let w := mkWorkItem k promise command args env stdout_file stderr_file in
  let calls := DoExecve_calls command args env stdout_file stderr_file in
  (DoExecve k command args env stdout_file stderr_file t st).2
    = Throw (system_error execve_errno0 "execve")
  ∧ events (DoExecve k command args env stdout_file stderr_file t st).1
    = events st ++ ((λ e, (t, e)) <$> calls)
  ∧ (SysAbort ∉ calls)
  ∧ (Exec_lambda w t st).2 = Throw (system_error execve_errno0 "execve").
Proof.
  intros k w calls. split; [|split; [|split]].
  - rewrite DoExecve_run. reflexivity.
  - rewrite DoExecve_run. simpl. by rewrite events_add_events.
  - subst calls. unfold DoExecve_calls. intros He. elem_cases He.
    + apply elem_of_reopen in He as (f & _ & He). discriminate.
    + apply elem_of_reopen in He as (f & _ & He). discriminate.
    + discriminate.
  - rewrite Exec_lambda_child by reflexivity. rewrite DoExecve_run. reflexivity.
Qed.

(** ** The registry *)

Lemma filter_key_absent {V} (l : list (Z * V)) (pid : Z) :
  pid ∉ l.*1 → filter (λ e, e.1 = pid) l = [].
Proof.
  induction l as [|[k v] l IH]; simpl; intros Hn; [done|].
  apply not_elem_of_cons in Hn as [Hne Hn].
  rewrite filter_cons_False by (simpl; congruence). by apply IH.
Qed.

Lemma filter_key_le_1 {V} (l : list (Z * V)) (pid : Z) :
  NoDup (l.*1) → (length (filter (λ e, e.1 = pid) l) ≤ 1)%nat.
Proof.
  induction l as [|[k v] l IH]; simpl; intros Hnd; [lia|].
  apply NoDup_cons in Hnd as [Hk Hnd].
  destruct (decide (k = pid)) as [->|Hne].
  - rewrite filter_cons_True by done. rewrite filter_key_absent by done. simpl. lia.
  - rewrite filter_cons_False by done. by apply IH.
Qed.

(** What the lambda of [Exec] does to the registry, whatever branch it takes. *)
Lemma Exec_lambda_child_process_map w t st :
  child_process_map (Exec_lambda w t st).1 = child_process_map st
  ∨ (child_process_map st !! fork_ret (w_kernel w) = None
     ∧ ∃ value, child_process_map (Exec_lambda w t st).1
                = <[fork_ret (w_kernel w) := value]> (child_process_map st)).
Proof.
  destruct (decide (fork_ret (w_kernel w) = -1)) as [H1|H1].
  { left. rewrite Exec_lambda_fork_failed by done. cbn.
    by rewrite child_process_map_add_events. }
  destruct (decide (fork_ret (w_kernel w) = 0)) as [H0|H0].
  { left. rewrite Exec_lambda_child, DoExecve_run by done. cbv zeta.
    destruct (execve_ret _) as [r|]; [destruct (decide _)|]; cbn;
      by rewrite !child_process_map_add_events. }
  destruct (child_process_map st !! fork_ret (w_kernel w)) as [present|] eqn:Hm.
  - left. rewrite (Exec_lambda_collision _ _ _ present) by done. cbn.
    by rewrite child_process_map_add_events.
  - right. split; [done|]. rewrite Exec_lambda_registered by done. cbn.
    rewrite child_process_map_add_events. eauto.
Qed.

(** C2: [ChildProcessMapSet] is an insert-if-absent.  With an entry present
    for the pid it answers with that entry and [false], and the map is the
    same; without one it answers with the new entry and [true], and the map
    is the old one with that entry added.  Entries of other pids are never
    touched, and the map after the call lists at most one entry for any pid.
    The lambda of [Exec], which is the caller, leaves every entry that
    exists when it starts as it is. *)
Theorem registration_is_insert_if_absent (pid : Z) (value : ChildProcessMapValue)
    (t : thread) (st : State) :
  let r := ChildProcessMapSet pid value t st in
  match child_process_map st !! pid with
  | Some present =>
      r.2 = Ret (present, false) ∧ child_process_map r.1 = child_process_map st
  | None =>
      r.2 = Ret (value, true)
      ∧ child_process_map r.1 = <[pid := value]> (child_process_map st)
  end
  ∧ (∀ other, other ≠ pid →
       child_process_map r.1 !! other = child_process_map st !! other)
  ∧ (∀ any, (length (filter (λ e, e.1 = any) (map_to_list (child_process_map r.1)))
             ≤ 1)%nat)
  ∧ (∀ w any present,
       child_process_map st !! any = Some present →
       child_process_map (Exec_lambda w t st).1 !! any = Some present).
Proof.
  intros r. subst r. unfold ChildProcessMapSet.
  split; [|split; [|split]].
  - destruct (child_process_map st !! pid); done.
  - intros other Hne. destruct (child_process_map st !! pid); cbn; [done|].
    by rewrite lookup_insert_ne.
  - intros any. apply filter_key_le_1, NoDup_fst_map_to_list.
  - intros w any present Hany.
    destruct (Exec_lambda_child_process_map w t st) as [->|[Hnone [v ->]]]; [done|].
    rewrite lookup_insert_ne; [done|]. congruence.
Qed.

(** ** The environment *)

Lemma UpdateWith_union (self : EnvironmentVariables) (env_update : EnvironmentVariablesUpdate) :
  UpdateWith self env_update = env_update ∪ self.
Proof.
  unfold UpdateWith. induction env_update as [|key value m Hkey IH] using map_ind.
  - by rewrite map_fold_empty, (left_id_L ∅ (∪)).
  - rewrite map_fold_insert_L; [|intros; by apply insert_insert_ne|done].
    by rewrite IH, insert_union_l.
Qed.

Lemma UpdateWith_lookup (self : EnvironmentVariables) (env_update : EnvironmentVariablesUpdate)
    (key : string) :
  UpdateWith self env_update !! key =
  match env_update !! key with
  | Some value => Some value
  | None => self !! key
  end.
Proof.
  rewrite UpdateWith_union. destruct (env_update !! key) as [value|] eqn:Hk.
  - by apply lookup_union_Some_l.
  - by rewrite lookup_union_r.
Qed.

Lemma UpdateWith_empty (self : EnvironmentVariables) : UpdateWith self ∅ = self.
Proof. by rewrite UpdateWith_union, (left_id_L ∅ (∪)). Qed.

(** C10: the overload without an environment is the update form with an
    empty update, the empty update changes nothing, and so the call is the
    full-environment overload applied to the current environment: the same
    function is queued, and the two calls end in the same state with the same
    result. *)
Theorem inheriting_is_full_with_current_env (self : ProcessStarter) (k : Kernel)
    (command : string) (args : list string) (stdout_file stderr_file : option string)
    (t : thread) (st : State) :
  Exec_current_env self k command args stdout_file stderr_file
  = Exec_env_update self k command args ∅ stdout_file stderr_file
  ∧ (∀ env : EnvironmentVariables, UpdateWith env ∅ = env)
  ∧ Exec_current_env self k command args stdout_file stderr_file t st
    = Exec_inherited_spec self k command args stdout_file stderr_file t st
  ∧ Exec_current_env self k command args stdout_file stderr_file t st
    = Exec self k command args (environ st) stdout_file stderr_file t st.
Proof.
  split; [reflexivity|]. split; [apply UpdateWith_empty|].
  unfold Exec_current_env, Exec_env_update, Exec_inherited_spec,
    GetCurrentEnvironmentVariables. unfold_M.
  by rewrite UpdateWith_empty.
Qed.

Lemma events_resume p st : events (resume p st).1 = events st.
Proof. unfold resume. destruct (exec_states st !! p) as [[]|]; reflexivity. Qed.

(** The trace of a call of [Exec] is the trace of its lambda, run when the
    earlier functions are done, and behind it the exception that left the
    lambda, if one did. *)
Lemma Exec_events self k command args env stdout_file stderr_file t st st1 :
  earlier_funcs_run command t st st1 →
  let w := mkWorkItem k (fresh (dom (exec_states st))) command args env
             stdout_file stderr_file in
  ∃ tail,
    events (Exec self k command args env stdout_file stderr_file t st).1
    = events (Exec_lambda w (thread_control_ self) st1).1 ++ tail
    ∧ (tail = [] ∨ ∃ e, tail = [(thread_control_ self, Escaped e)]).
Proof.
  intros Hq w. rewrite (Exec_run _ _ _ _ _ _ _ _ _ _ Hq). cbv zeta. fold w.
  destruct (Exec_lambda w (thread_control_ self) st1) as [st2 [[]|e| | |]]; simpl.
  - exists []. rewrite events_resume, app_nil_r. auto.
  - exists [(thread_control_ self, Escaped e)]. rewrite events_resume. eauto.
  - exists []. rewrite app_nil_r. auto.
  - exists []. rewrite app_nil_r. auto.
  - exists []. rewrite app_nil_r. auto.
Qed.

(** C7: the update form calls the full form with the current environment
    updated by [env_update].  In that environment every key of [env_update]
    has the value given there, whether the current environment had the key
    or not, and every other key has what the current environment has for it
    (a value or nothing).  In the child the [execve] is made with exactly the
    strings [key=value] of that environment. *)
Theorem env_update_overlays_current (self : ProcessStarter) (k : Kernel)
    (command : string) (args : list string) (env_update : EnvironmentVariablesUpdate)
    (stdout_file stderr_file : option string) (t : thread) (st st1 : State) :
  fork_ret k = 0 →
  earlier_funcs_run command t st st1 →
  let env := UpdateWith (environ st) env_update in
  let envp := key_value <$> map_to_list env in
  Exec_env_update self k command args env_update stdout_file stderr_file t st
  = Exec self k command args env stdout_file stderr_file t st
  ∧ (∀ key value, env_update !! key = Some value → env !! key = Some value)
  ∧ (∀ key, env_update !! key = None → env !! key = environ st !! key)
  ∧ (thread_control_ self, SysExecve command (command :: args) envp)
    ∈ events (Exec_env_update self k command args env_update
                stdout_file stderr_file t st).1
  ∧ (∀ s, s ∈ envp ↔ ∃ key value, env !! key = Some value ∧ s = key +:+ "=" +:+ value).
Proof.
  intros Hf Hq env envp.
  assert (Heq : Exec_env_update self k command args env_update stdout_file stderr_file t st
                = Exec self k command args env stdout_file stderr_file t st) by reflexivity.
  split; [exact Heq|]. split; [|split; [|split]].
  - intros key value Hk. subst env. by rewrite UpdateWith_lookup, Hk.
  - intros key Hk. subst env. by rewrite UpdateWith_lookup, Hk.
  - rewrite Heq.
    destruct (Exec_events self k command args env stdout_file stderr_file t st st1 Hq)
      as (tail & -> & _).
    apply elem_of_app; left.
    destruct (Exec_lambda_child_events
                (mkWorkItem k (fresh (dom (exec_states st))) command args env
                   stdout_file stderr_file) (thread_control_ self) st1 Hf)
      as (tl & -> & _).
    apply elem_of_app; right. apply list_elem_of_fmap.
    eexists; split; [reflexivity|]. unfold DoExecve_calls; cbn. set_solver.
  - intros s. subst envp. rewrite list_elem_of_fmap. split.
    + intros ([key value] & -> & Hin). apply elem_of_map_to_list in Hin. eauto.
    + intros (key & value & Hin & ->). exists (key, value).
      split; [reflexivity|]. by apply elem_of_map_to_list.
Qed.

Lemma env_update_overlays_current_witness :
  let env_update : gmap string string := <["HOME" := "/tmp"]> (<["LANG" := "C"]> ∅) in
  let st := idle in
  let st1 := Exec_entered "/usr/bin/env" (Worker 0) st in
  let env := UpdateWith (environ st) env_update in
  let envp := key_value <$> map_to_list env in
  (fork_ret in_child = 0 ∧ earlier_funcs_run "/usr/bin/env" (Worker 0) st st1)
  ∧ Exec_env_update starter in_child "/usr/bin/env" [] env_update None None (Worker 0) st
    = Exec starter in_child "/usr/bin/env" [] env None None (Worker 0) st
  ∧ (∀ key value, env_update !! key = Some value → env !! key = Some value)
  ∧ (∀ key, env_update !! key = None → env !! key = environ st !! key)
  ∧ (thread_control_ starter, SysExecve "/usr/bin/env" ["/usr/bin/env"] envp)
    ∈ events (Exec_env_update starter in_child "/usr/bin/env" [] env_update
                None None (Worker 0) st).1
  ∧ (∀ s, s ∈ envp ↔ ∃ key value, env !! key = Some value ∧ s = key +:+ "=" +:+ value).
Proof.
  split; [split; reflexivity|].
  exact (env_update_overlays_current starter in_child "/usr/bin/env" []
           (<["HOME" := "/tmp"]> (<["LANG" := "C"]> ∅)) None None (Worker 0)
           idle (Exec_entered "/usr/bin/env" (Worker 0) idle) eq_refl eq_refl).
Defined.

(** ** Exec in the parent *)

Lemma Exec_any_unfold self k command args env stdout_file stderr_file t st :
  Exec_any self k command args env stdout_file stderr_file t st
  = Exec self k command args (resolved_env env st) stdout_file stderr_file t st.
Proof. destruct env; reflexivity. Qed.

(** *** The redirection of stdout and stderr, seen from the call *)



(** *** A pid that is already registered *)

(** C1: when the pid that [fork] returned already has an entry in the
    registry at the time the function of the call runs, [Exec], in each of
    its three forms, ends with the [runtime_error] whose message is
    "process with pid=", the pid in decimal, " already exists in
    child_process_map"; the last calls made on the event thread are the
    refused registration, the error log of that message followed by
    ", send SIGKILL", and [kill(pid, SIGKILL)]; the registry and the shared
    states of all status promises, those of the entry that was there
    included, are what they were. *)
Theorem collision_kills_and_fails (self : ProcessStarter) (k : Kernel)
    (command : string) (args : list string) (env : EnvArg)
    (stdout_file stderr_file : option string) (t : thread) (st st1 : State)
    (present : ChildProcessMapValue) :
  let pid := fork_ret k in
  let tc := thread_control_ self in
  let msg := "process with pid=" +:+ pretty pid
             +:+ " already exists in child_process_map" in
  pid ≠ -1 → pid ≠ 0 →
  earlier_funcs_run command t st st1 →
  child_process_map st1 !! pid = Some present →
  ∃ st',
    Exec_any self k command args env stdout_file stderr_file t st
    = (st', Throw (runtime_error msg))
    ∧ (∃ before,
         events st' = events st1 ++ before
           ++ [(tc, RegistrySet pid false);
               (tc, Log kError (msg +:+ ", send SIGKILL"));
               (tc, SysKill pid SIGKILL)])
    ∧ child_process_map st' = child_process_map st1
    ∧ child_process_map st' !! pid = Some present
    ∧ status_states st' = status_states st1.
Proof.
  intros pid tc msg H1 H0 Hq Hm.
  assert (Hmsg : msg = collision_msg pid) by reflexivity.
  clearbody msg. subst msg.
  rewrite Exec_any_unfold.
  rewrite (Exec_run _ _ _ _ _ _ _ _ _ _ Hq). cbv zeta.
  rewrite (Exec_lambda_collision _ _ _ present) by done.
  unfold resume. cbn [exec_states set_exec_states w_promise w_kernel].
  rewrite lookup_insert_eq. eexists. split; [reflexivity|].
  cbn [events child_process_map status_states set_exec_states].
  rewrite events_add_events, child_process_map_add_events, status_states_add_events.
  split; [|done].
  exists ((λ e, (tc, e)) <$> (lambda_start
            (mkWorkItem k (fresh (dom (exec_states st))) command args
               (resolved_env env st) stdout_file stderr_file) ++ lambda_parent pid)).
  rewrite !fmap_app, <- !app_assoc. reflexivity.
Qed.

Lemma collision_kills_and_fails_witness :
  let st1 := Exec_entered "/bin/echo" (Worker 0) stale in
  (fork_ret in_parent ≠ -1 ∧ fork_ret in_parent ≠ 0
   ∧ earlier_funcs_run "/bin/echo" (Worker 0) stale st1
   ∧ child_process_map st1 !! fork_ret in_parent = Some (mkChildProcessMapValue 0%nat))
  ∧ ∃ st',
      Exec_any starter in_parent "/bin/echo" ["hello"] Inherited None None (Worker 0) stale
      = (st', Throw (runtime_error
                       "process with pid=4242 already exists in child_process_map"))
      ∧ (∃ before,
           events st' = events st1 ++ before
             ++ [(EvDefaultLoopThread, RegistrySet 4242 false);
                 (EvDefaultLoopThread,
                  Log kError
                    "process with pid=4242 already exists in child_process_map, send SIGKILL");
                 (EvDefaultLoopThread, SysKill 4242 9)])
      ∧ child_process_map st' = child_process_map st1
      ∧ child_process_map st' !! 4242 = Some (mkChildProcessMapValue 0%nat)
      ∧ status_states st' = status_states st1.
Proof.
  split; [repeat split; done|].
  exact (collision_kills_and_fails starter in_parent "/bin/echo" ["hello"] Inherited
           None None
           (Worker 0) stale (Exec_entered "/bin/echo" (Worker 0) stale)
           (mkChildProcessMapValue 0%nat)
           ltac:(done) ltac:(done) eq_refl eq_refl).
Defined.

Example collision_msg_sample :
  collision_msg 4242 = "process with pid=4242 already exists in child_process_map".
Proof. vm_compute. reflexivity. Qed.

(** ** Exec when fork fails *)

Lemma Exec_fork_failed self k command args env stdout_file stderr_file t st st1 :
  fork_ret k = -1 →
  earlier_funcs_run command t st st1 →
  exec_states st1 !! fresh (dom (exec_states st)) = Some NotReady →
  let w := mkWorkItem k (fresh (dom (exec_states st))) command args env
             stdout_file stderr_file in
  Exec self k command args env stdout_file stderr_file t st
  = (add_event (thread_control_ self) (Escaped (system_error (fork_errno k) "fork"))
       (set_errno (fork_errno k) (add_events (thread_control_ self) (lambda_start w) st1)),
     Blocked).
Proof.
  intros Hf Hq Hp w.
  rewrite (Exec_run _ _ _ _ _ _ _ _ _ _ Hq). cbv zeta. fold w.
  rewrite Exec_lambda_fork_failed by done.
  unfold resume. cbn [exec_states add_event set_errno].
  rewrite exec_states_add_events, Hp. reflexivity.
Qed.

(** With no function waiting, the loop starts the function of the call in
    the state in which the task was suspended. *)
Lemma earlier_funcs_run_idle command t st :
  earlier_funcs_run command t (set_ev_queue (λ _, []) st)
    (Exec_entered command t (set_ev_queue (λ _, []) st)).
Proof. reflexivity. Qed.

Lemma Exec_entered_promise command t st :
  exec_states (Exec_entered command t st) !! fresh (dom (exec_states st)) = Some NotReady.
Proof. unfold Exec_entered. cbn. apply lookup_insert_eq. Qed.

(** C4 (the code departs from it): when [fork] fails, in each of the three
    forms of [Exec] and with no other function waiting, [CheckSyscall] raises
    [system_error] inside the lambda, on the event thread; nothing sets the
    promise, so its shared state stays [NotReady], the exception only leaves
    the lambda, and the caller stays suspended: [Exec] neither returns nor
    raises.  The registry is unchanged. *)
Theorem fork_failure_never_reaches_caller (self : ProcessStarter)
    (errno_of_fork : Z) (execve_ret0 : option Z) (execve_errno0 : Z)
    (command : string) (args : list string) (env : EnvArg)
    (stdout_file stderr_file : option string) (t : thread) (st : State) :
  let k := mkKernel (-1) errno_of_fork execve_ret0 execve_errno0 in
  let tc := thread_control_ self in
  let idle_st := set_ev_queue (λ _, []) st in
  let r := Exec_any self k command args env stdout_file stderr_file t idle_st in
  r.2 = Blocked
  ∧ exec_states r.1 !! fresh (dom (exec_states st)) = Some NotReady
  ∧ child_process_map r.1 = child_process_map st
  ∧ ∃ before,
      events r.1 = events st ++ before
        ++ [(tc, SysFork (-1)); (tc, Escaped (system_error errno_of_fork "fork"))].
Proof.
  intros k tc idle_st r. subst r. rewrite Exec_any_unfold.
  rewrite (Exec_fork_failed self k command args _ stdout_file stderr_file t idle_st _
             eq_refl (earlier_funcs_run_idle command t st) (Exec_entered_promise _ _ _)).
  cbn [fst snd exec_states child_process_map events add_event set_errno].
  rewrite exec_states_add_events, child_process_map_add_events, events_add_events.
  split; [done|]. split; [exact (Exec_entered_promise command t idle_st)|].
  split; [done|].
  eexists [(t, SpanTag "command" command); (tc, Log kDebug _)].
  unfold lambda_start. cbn. rewrite <- !app_assoc. reflexivity.
Qed.

(** C6 (the code departs from it): at the failing input of C4, a [fork]
    refused with EAGAIN, the function of the call has run to its end (the
    queue of the event thread is empty) and yet none of the three forms of
    [Exec] yields a handle or an error: the task stays suspended. *)
Theorem refused_fork_yields_neither_handle_nor_error (env : EnvArg) :
  let r := Exec_any starter fork_refused "/bin/echo" ["hello"] env None None
             (Worker 0) idle in
  r.2 = Blocked
  ∧ ev_queue r.1 = []
  ∧ (∀ handle, r.2 ≠ Ret handle)
  ∧ (∀ e, r.2 ≠ Throw e).
Proof.
  intros r. subst r. rewrite Exec_any_unfold.
  rewrite (Exec_fork_failed starter fork_refused "/bin/echo" ["hello"] _ None None
             (Worker 0) idle _ eq_refl
             (earlier_funcs_run_idle "/bin/echo" (Worker 0) idle)
             (Exec_entered_promise _ _ _)).
  cbn [fst snd ev_queue add_event set_errno]. rewrite ev_queue_add_events.
  split; [done|]. split; [done|]. split; discriminate.
Qed.

(** ** Exec when the registration succeeds *)

(** X1: when [fork] returned a child pid that has no entry in the registry,
    each of the three forms of [Exec] returns the handle of that pid as soon as
    the function of the call has run: the handle's future shares its state
    with the promise of the new registry entry, and that state is still
    [NotReady], so the status of the child was not waited for. *)
Theorem Exec_returns_handle_while_status_pending (self : ProcessStarter) (k : Kernel)
    (command : string) (args : list string) (env : EnvArg)
    (stdout_file stderr_file : option string) (t : thread) (st st1 : State) :
  let pid := fork_ret k in
  pid ≠ -1 → pid ≠ 0 →
  earlier_funcs_run command t st st1 →
  child_process_map st1 !! pid = None →
  ∃ st' s,
    Exec_any self k command args env stdout_file stderr_file t st
    = (st', Ret (mkChildProcessImpl pid (Some s)))
    ∧ child_process_map st' = <[pid := mkChildProcessMapValue s]> (child_process_map st1)
    ∧ status_states st1 !! s = None
    ∧ status_states st' !! s = Some NotReady
    ∧ ev_queue st' = ev_queue st1.
Proof.
  intros pid H1 H0 Hq Hm. rewrite Exec_any_unfold.
  rewrite (Exec_run _ _ _ _ _ _ _ _ _ _ Hq). cbv zeta.
  rewrite Exec_lambda_registered by done.
  unfold resume. cbn [exec_states set_exec_states set_child_process_map
                      set_status_states w_promise w_kernel].
  rewrite lookup_insert_eq. do 2 eexists. split; [reflexivity|].
  cbn [child_process_map status_states ev_queue set_exec_states
       set_child_process_map set_status_states].
  rewrite child_process_map_add_events, status_states_add_events, ev_queue_add_events.
  split; [done|]. split; [apply fresh_status_state|]. split; [|done].
  apply lookup_insert_eq.
Qed.

Lemma Exec_returns_handle_while_status_pending_witness :
  let st1 := Exec_entered "/bin/echo" (Worker 0) idle in
  (fork_ret in_parent ≠ -1 ∧ fork_ret in_parent ≠ 0
   ∧ earlier_funcs_run "/bin/echo" (Worker 0) idle st1
   ∧ child_process_map st1 !! fork_ret in_parent = None)
  ∧ ∃ st' s,
      Exec_any starter in_parent "/bin/echo" ["hello"] Inherited None None (Worker 0) idle
      = (st', Ret (mkChildProcessImpl 4242 (Some s)))
      ∧ child_process_map st' = <[4242 := mkChildProcessMapValue s]> (child_process_map st1)
      ∧ status_states st1 !! s = None
      ∧ status_states st' !! s = Some NotReady
      ∧ ev_queue st' = ev_queue st1.
Proof.
  split; [repeat split; done|].
  exact (Exec_returns_handle_while_status_pending starter in_parent "/bin/echo" ["hello"]
           Inherited None None (Worker 0) idle (Exec_entered "/bin/echo" (Worker 0) idle)
           ltac:(done) ltac:(done) eq_refl eq_refl).
Defined.

(** ** Which thread forks and registers *)

Lemma serialized_app l1 l2 : serialized l1 → serialized l2 → serialized (l1 ++ l2).
Proof.
  induction 1 as [|r l Hr Hl IH|pid inserted l H1 H0 Hl IH]; intros H2; simpl.
  - done.
  - apply serialized_no_child; auto.
  - apply serialized_registered; auto.
Qed.

Lemma forks_and_registrations_app l1 l2 :
  forks_and_registrations (l1 ++ l2)
  = forks_and_registrations l1 ++ forks_and_registrations l2.
Proof. apply filter_app. Qed.

Lemma forks_and_registrations_DoExecve_calls command args env stdout_file stderr_file :
  forks_and_registrations (DoExecve_calls command args env stdout_file stderr_file) = [].
Proof. destruct stdout_file, stderr_file; reflexivity. Qed.

(** The calls of one run of the lambda: a [fork], and behind it the
    registration when there is a child pid. *)
Lemma Exec_lambda_calls w t st :
  ∃ calls,
    events (Exec_lambda w t st).1 = events st ++ ((λ e, (t, e)) <$> calls)
    ∧ serialized (forks_and_registrations calls)
    ∧ SysFork (fork_ret (w_kernel w)) ∈ calls.
Proof.
  assert (Hin : ∀ l, SysFork (fork_ret (w_kernel w)) ∈ lambda_start w ++ l).
  { intros l. unfold lambda_start. set_solver. }
  destruct (decide (fork_ret (w_kernel w) = -1)) as [H1|H1].
  { exists (lambda_start w ++ []). rewrite Exec_lambda_fork_failed by done.
    cbn [fst events set_errno]. rewrite events_add_events, app_nil_r.
    split; [done|]. split; [|rewrite <- (app_nil_r (lambda_start w)); apply Hin].
    cbn. constructor; [auto|constructor]. }
  destruct (decide (fork_ret (w_kernel w) = 0)) as [H0|H0].
  { destruct (Exec_lambda_child_events w t st H0) as (tail & Hev & Htail).
    eexists. split; [exact Hev|]. split; [|apply Hin].
    rewrite !forks_and_registrations_app, forks_and_registrations_DoExecve_calls.
    assert (forks_and_registrations tail = []) as ->
      by (destruct Htail; subst tail; reflexivity).
    cbn. constructor; [auto|constructor]. }
  destruct (child_process_map st !! fork_ret (w_kernel w)) as [present|] eqn:Hm.
  - eexists. rewrite (Exec_lambda_collision _ _ _ present) by done.
    cbn [fst events set_exec_states]. rewrite events_add_events.
    split; [reflexivity|]. split; [|apply Hin].
    cbn. constructor; [done|done|constructor].
  - eexists. rewrite Exec_lambda_registered by done.
    cbn [fst events set_exec_states set_child_process_map set_status_states].
    rewrite events_add_events.
    split; [reflexivity|]. split; [|apply Hin].
    cbn. constructor; [done|done|constructor].
Qed.

(** The loop adds calls of the event thread only, one [fork] at a time. *)
Lemma run_funcs_calls q st :
  Forall (λ f, f.1 = EvDefaultLoopThread) q →
  ∃ calls,
    events (run_funcs q st).1 = events st ++ ((λ e, (EvDefaultLoopThread, e)) <$> calls)
    ∧ serialized (forks_and_registrations calls).
Proof.
  intros Hq. revert st. induction Hq as [|[t w] q Ht Hq IH]; intros st; simpl.
  { exists []. rewrite app_nil_r. split; [done|constructor]. }
  simpl in Ht. subst t.
  destruct (Exec_lambda_calls w EvDefaultLoopThread st) as (calls & Hev & Hser & _).
  destruct (Exec_lambda w EvDefaultLoopThread st) as [st' o]. simpl in Hev.
  destruct o as [[]|e| | |].
  - destruct (IH st') as (rest & Hrest & Hser').
    exists (calls ++ rest). rewrite Hrest, Hev, fmap_app, <- app_assoc.
    split; [done|]. rewrite forks_and_registrations_app. by apply serialized_app.
  - destruct (IH (add_event EvDefaultLoopThread (Escaped e) st')) as (rest & Hrest & Hser').
    exists (calls ++ [Escaped e] ++ rest).
    rewrite Hrest. cbn [events add_event]. rewrite Hev, !fmap_app, <- !app_assoc.
    split; [done|]. rewrite !forks_and_registrations_app.
    apply serialized_app; [done|]. by apply serialized_app; [constructor|].
  - exists calls. simpl. auto.
  - exists calls. simpl. auto.
  - exists calls. simpl. auto.
Qed.

Lemma Exec_events_loop self k command args env stdout_file stderr_file t st :
  let w := mkWorkItem k (fresh (dom (exec_states st))) command args env
             stdout_file stderr_file in
  events (Exec self k command args env stdout_file stderr_file t st).1
  = events (run_funcs (ev_queue st ++ [(thread_control_ self, w)])
              (Exec_entered command t st)).1.
Proof.
  intros w.
  unfold Exec, with_promise, RunInEvLoopAsync, Future_get, run_ev_loop. unfold_M.
  cbn. fold w.
  change (mkState _ _ _ _ _ _ _) with (Exec_entered command t st).
  destruct (run_funcs _ _) as [st2 [[]|e| | |]]; try reflexivity.
  cbn. destruct (exec_states st2 !! _) as [[]|]; reflexivity.
Qed.

(** C5: a [ProcessStarter] built by its constructor holds the default
    event-loop thread.  For every call of [Exec] made by a task on a worker
    thread, with the functions of other calls still waiting in the queue of
    the event thread: every [fork] and every registration added to the trace
    is made on the event thread and none on the worker; the forks and
    registrations of this call and of the waiting ones come one call at a
    time, each [fork] directly followed by its registration; and the [fork]
    of this call is among them once the earlier functions have run. *)
Theorem fork_and_register_on_event_thread (tp : TaskProcessor) (k : Kernel)
    (command : string) (args : list string) (env : EnvArg)
    (stdout_file stderr_file : option string) (n : nat) (st : State) :
  Forall (λ f, f.1 = EvDefaultLoopThread) (ev_queue st) →
  let self := ProcessStarter_new tp in
  thread_control_ self = EvDefaultLoopThread
  ∧ ∃ new,
      events (Exec_any self k command args env stdout_file stderr_file (Worker n) st).1
      = events st ++ new
      ∧ (∀ t e, (t, e) ∈ new → fork_or_register e = true → t = EvDefaultLoopThread)
      ∧ (∀ e, (Worker n, e) ∈ new → fork_or_register e = false)
      ∧ serialized (forks_and_registrations new.*2)
      ∧ (∀ st1, earlier_funcs_run command (Worker n) st st1 →
           (EvDefaultLoopThread, SysFork (fork_ret k)) ∈ new).
Proof.
  intros Hq self. split; [reflexivity|].
  rewrite Exec_any_unfold. set (e := resolved_env env st).
  set (w := mkWorkItem k (fresh (dom (exec_states st))) command args e
              stdout_file stderr_file).
  pose proof (Exec_events_loop self k command args e stdout_file stderr_file
                (Worker n) st) as Hev. cbv zeta in Hev. fold w in Hev.
  destruct (run_funcs_calls (ev_queue st ++ [(thread_control_ self, w)])
              (Exec_entered command (Worker n) st)) as (calls & Hcalls & Hser).
  { apply Forall_app; split; [done|]. by constructor. }
  rewrite Hcalls in Hev. cbn [events Exec_entered set_ev_queue set_exec_states add_event] in Hev.
  rewrite <- app_assoc in Hev.
  eexists. split; [exact Hev|]. split; [|split; [|split]].
  - intros t e0 Hin Hfr. apply elem_of_app in Hin as [Hin|Hin].
    + apply list_elem_of_singleton in Hin. by inversion Hin; subst.
    + apply list_elem_of_fmap in Hin as (e1 & Heq & _). by inversion Heq.
  - intros e0 Hin. apply elem_of_app in Hin as [Hin|Hin].
    + apply list_elem_of_singleton in Hin. by inversion Hin; subst.
    + apply list_elem_of_fmap in Hin as (e1 & Heq & _). by inversion Heq.
  - rewrite fmap_app, <- list_fmap_compose, forks_and_registrations_app.
    simpl. by rewrite list_fmap_id.
  - intros st1 Hst1. apply elem_of_app; right.
    destruct (Exec_events self k command args e stdout_file stderr_file (Worker n)
                st st1 Hst1) as (tail & Hev' & _).
    cbv zeta in Hev'. fold w in Hev'.
    destruct (Exec_lambda_calls w (thread_control_ self) st1) as (own & Hown & _ & Hfork).
    rewrite Hev, Hown in Hev'.
    assert (Hst1ev : ∃ earlier, events st1 = (events st ++ [(Worker n, SpanTag "command" command)])
                                  ++ ((λ e, (EvDefaultLoopThread, e)) <$> earlier)).
    { destruct (run_funcs_calls (ev_queue st) (Exec_entered command (Worker n) st) Hq)
        as (earlier & Hearlier & _).
      unfold earlier_funcs_run in Hst1. rewrite Hst1 in Hearlier. eauto. }
    destruct Hst1ev as (earlier & Hearlier). rewrite Hearlier in Hev'.
    rewrite <- !app_assoc in Hev'. do 2 apply app_inv_head in Hev'.
    rewrite Hev'. apply elem_of_app; right. apply elem_of_app; left.
    apply list_elem_of_fmap. by exists (SysFork (fork_ret k)).
Qed.

Lemma fork_and_register_on_event_thread_witness :
  let tp := task_processor "main-task-processor" in
  let r := Exec_any (ProcessStarter_new tp) in_parent "/bin/echo" ["hello"] Inherited
             None None (Worker 0) busy in
  Forall (λ f, f.1 = EvDefaultLoopThread) (ev_queue busy)
  ∧ thread_control_ (ProcessStarter_new tp) = EvDefaultLoopThread
  ∧ ∃ new,
      events r.1 = events busy ++ new
      ∧ (∀ t e, (t, e) ∈ new → fork_or_register e = true → t = EvDefaultLoopThread)
      ∧ (∀ e, (Worker 0, e) ∈ new → fork_or_register e = false)
      ∧ serialized (forks_and_registrations new.*2)
      ∧ (∀ st1, earlier_funcs_run "/bin/echo" (Worker 0) busy st1 →
           (EvDefaultLoopThread, SysFork (fork_ret in_parent)) ∈ new).
Proof.
  split; [repeat constructor|].
  exact (fork_and_register_on_event_thread (task_processor "main-task-processor")
           in_parent "/bin/echo" ["hello"] Inherited None None 0%nat busy
           ltac:(repeat constructor)).
Defined.

Example two_calls_one_fork_at_a_time :
  forks_and_registrations
    (events (Exec starter in_parent "/bin/echo" ["hello"] ∅ None None (Worker 0) busy).1).*2
  = [SysFork 4100; RegistrySet 4100 true; SysFork 4242; RegistrySet 4242 true].
Proof. vm_compute. reflexivity. Qed.

Example child_survives_failed_execve :
  let r := Exec starter in_child_no_such_file "/no/such/file" [] ∅ None None
             (Worker 0) idle in
  r.2 = Blocked
  ∧ events r.1
    = [(Worker 0, SpanTag "command" "/no/such/file");
       (EvDefaultLoopThread,
        Log kDebug "do fork() + execve(), command=/no/such/file, args=[], env=[]");
       (EvDefaultLoopThread, SysFork 0);
       (EvDefaultLoopThread, SysExecve "/no/such/file" ["/no/such/file"] []);
       (EvDefaultLoopThread, Escaped (system_error ENOENT "execve"))].
Proof. vm_compute. split; reflexivity. Qed.

Example refused_fork_trace :
  let r := Exec starter fork_refused "/bin/echo" ["hello"] ∅ None None (Worker 0) idle in
  r.2 = Blocked
  ∧ exec_states r.1 = <[0%nat := NotReady]> ∅
  ∧ events r.1
    = [(Worker 0, SpanTag "command" "/bin/echo");
       (EvDefaultLoopThread,
        Log kDebug "do fork() + execve(), command=/bin/echo, args=['hello'], env=[]");
       (EvDefaultLoopThread, SysFork (-1));
       (EvDefaultLoopThread, Escaped (system_error EAGAIN "fork"))].
Proof. vm_compute. repeat split; reflexivity. Qed.

Example echo_hello_in_parent :
  let r := Exec_current_env starter in_parent "/bin/echo" ["hello"] (Some "/tmp/out.txt") None
             (Worker 0) idle in
  r.2 = Ret (mkChildProcessImpl 4242 (Some 0%nat))
  ∧ child_process_map r.1 = <[4242 := mkChildProcessMapValue 0%nat]> ∅
  ∧ status_states r.1 = <[0%nat := NotReady]> ∅
  ∧ exec_states r.1 = ∅.
Proof. vm_compute. repeat split; reflexivity. Qed.

Example env_update_sample :
  key_value <$> map_to_list (UpdateWith sample_environ
                               (<["HOME" := "/tmp"]> (<["LANG" := "C"]> ∅)))
  = ["LANG=C"; "HOME=/tmp"; "PATH=/bin"].
Proof. vm_compute. reflexivity. Qed.

(** ** What a run of the lambda leaves alone *)

Lemma environ_add_events t l st : environ (add_events t l st) = environ st.
Proof.
  unfold add_events. revert st.
  induction l as [|e l IH]; intros st; simpl; [done|by rewrite IH].
Qed.

(** The state after the lambda, field by field and branch by branch: either
    nothing is registered, or the pid is new and is registered with a fresh
    promise. *)
Lemma Exec_lambda_state w t st :
  let pid := fork_ret (w_kernel w) in
  let s' := (Exec_lambda w t st).1 in
  environ s' = environ st
  ∧ ev_queue s' = ev_queue st
  ∧ ((child_process_map s' = child_process_map st
      ∧ status_states s' = status_states st
      ∧ (pid = -1 ∨ pid = 0 ∨ is_Some (child_process_map st !! pid)))
     ∨ (pid ≠ -1 ∧ pid ≠ 0 ∧ child_process_map st !! pid = None
        ∧ child_process_map s'
          = <[pid := mkChildProcessMapValue (fresh (dom (status_states st)))]>
              (child_process_map st)
        ∧ status_states s'
          = <[fresh (dom (status_states st)) := NotReady]> (status_states st))).
Proof.
  intros pid s'. subst s'.
  destruct (decide (pid = -1)) as [H1|H1].
  { rewrite Exec_lambda_fork_failed by done. cbn.
    rewrite environ_add_events, ev_queue_add_events, child_process_map_add_events,
      status_states_add_events. auto 10. }
  destruct (decide (pid = 0)) as [H0|H0].
  { rewrite Exec_lambda_child, DoExecve_run by done. cbv zeta.
    destruct (execve_ret _) as [r|]; [destruct (decide _)|]; cbn;
      rewrite !environ_add_events, !ev_queue_add_events, !child_process_map_add_events,
        !status_states_add_events; auto 10. }
  destruct (child_process_map st !! pid) as [present|] eqn:Hm.
  - rewrite (Exec_lambda_collision _ _ _ present) by done. cbn.
    rewrite environ_add_events, ev_queue_add_events, child_process_map_add_events,
      status_states_add_events. eauto 10.
  - rewrite Exec_lambda_registered by done. cbn.
    rewrite environ_add_events, ev_queue_add_events, child_process_map_add_events,
      status_states_add_events. do 2 (split; [done|]). right. auto 10.
Qed.

(** A property of states that the lambda keeps, and that does not depend on
    the trace, on the queue or on the promises of the callers, is kept by the
    loop and by [Exec]. *)
Section Preserved.

Variable P : State → Prop.
Hypothesis P_lambda : ∀ w t st, P st → P (Exec_lambda w t st).1.
Hypothesis P_event : ∀ t e st, P st → P (add_event t e st).
Hypothesis P_exec_states : ∀ f st, P st → P (set_exec_states f st).
Hypothesis P_ev_queue : ∀ f st, P st → P (set_ev_queue f st).

Lemma run_funcs_preserves q st : P st → P (run_funcs q st).1.
Proof.
  revert st. induction q as [|[t w] q IH]; intros st HP; simpl; [done|].
  pose proof (P_lambda w t st HP) as HP'.
  destruct (Exec_lambda w t st) as [st' [[]|e| | |]]; simpl in *; auto.
Qed.

Lemma Exec_preserves self k command args env stdout_file stderr_file t st :
  P st → P (Exec self k command args env stdout_file stderr_file t st).1.
Proof.
  intros HP.
  unfold Exec, with_promise, RunInEvLoopAsync, Future_get, run_ev_loop. unfold_M.
  cbn.
  match goal with
  | |- context [run_funcs ?q ?s] =>
      assert (HP' : P (run_funcs q s).1);
      [ apply run_funcs_preserves;
        change s with
          (set_ev_queue (λ _, [])
             (set_exec_states <[fresh (dom (exec_states st)) := NotReady]>
                (add_event t (SpanTag "command" command) st))); auto
      | destruct (run_funcs q s) as [st2 [[]|e| | |]]; simpl in *; auto ]
  end.
  destruct (exec_states st2 !! _) as [[]|]; simpl; auto.
Qed.

Lemma Exec_any_preserves self k command args env stdout_file stderr_file t st :
  P st → P (Exec_any self k command args env stdout_file stderr_file t st).1.
Proof. rewrite Exec_any_unfold. apply Exec_preserves. Qed.

End Preserved.

(** ** Exec and the registry as a whole *)

(** X2: whatever happens in a call of [Exec], in any of its three forms and
    with any functions of other calls waiting (the fork fails, the process is
    the child, the pid collides, the registration succeeds), the call removes
    and replaces nothing: every registry entry and every status shared state
    that existed before the call is there unchanged after it, and [environ]
    is the same. *)
Theorem Exec_only_adds_to_registry (self : ProcessStarter) (k : Kernel)
    (command : string) (args : list string) (env : EnvArg)
    (stdout_file stderr_file : option string) (t : thread) (st : State) :
  let st' := (Exec_any self k command args env stdout_file stderr_file t st).1 in
  child_process_map st ⊆ child_process_map st'
  ∧ status_states st ⊆ status_states st'
  ∧ environ st' = environ st.
Proof.
  cbv zeta.
  apply (Exec_any_preserves
           (λ s, child_process_map st ⊆ child_process_map s
                 ∧ status_states st ⊆ status_states s
                 ∧ environ s = environ st)); try done.
  intros w t0 s (Hm & Hs & He).
  destruct (Exec_lambda_state w t0 s) as (He' & _ & Hcases). cbv zeta in *.
  rewrite He'. split; [|split; [|done]].
  - destruct Hcases as [(-> & _ & _)|(_ & _ & Hnone & -> & _)]; [done|].
    etrans; [exact Hm|]. by apply insert_subseteq.
  - destruct Hcases as [(_ & -> & _)|(_ & _ & _ & _ & ->)]; [done|].
    etrans; [exact Hs|]. apply insert_subseteq, fresh_status_state.
Qed.

Lemma registry_wf_lambda w t st : registry_wf st → registry_wf (Exec_lambda w t st).1.
Proof.
  intros [Hlive Hinj].
  destruct (Exec_lambda_state w t st) as (_ & _ & Hcases). cbv zeta in *.
  destruct Hcases as [(Hm & Hs & _)|(_ & _ & Hnone & Hm & Hs)];
    unfold registry_wf; rewrite Hm, Hs; [done|].
  set (p := fresh (dom (status_states st))).
  assert (Hp : status_states st !! p = None) by apply fresh_status_state.
  assert (Hold : ∀ pid v, child_process_map st !! pid = Some v → status_promise v ≠ p).
  { intros pid v Hv Heq. destruct (Hlive pid v Hv) as [x Hx]. congruence. }
  split.
  - intros pid v Hv. apply lookup_insert_Some in Hv as [[_ <-]|[_ Hv]]; simpl.
    + rewrite lookup_insert_eq. eauto.
    + rewrite lookup_insert_ne by (by apply not_eq_sym, (Hold pid)). by apply (Hlive pid).
  - intros pid1 pid2 v1 v2 Hv1 Hv2 Heq.
    apply lookup_insert_Some in Hv1 as [[<- <-]|[_ Hv1]];
      apply lookup_insert_Some in Hv2 as [[<- <-]|[_ Hv2]]; simpl in *.
    + done.
    + symmetry in Heq. by destruct (Hold pid2 v2 Hv2).
    + by destruct (Hold pid1 v1 Hv1).
    + by apply (Hinj pid1 pid2 v1 v2).
Qed.

(** X3: if every registry entry holds a promise whose shared state exists,
    and no two entries hold the same one, then this is so again after any call
    of [Exec], in any of its three forms and with any functions of other
    calls waiting: a registration never reuses the shared state of an entry
    that is there. *)
Theorem Exec_keeps_registry_wf (self : ProcessStarter) (k : Kernel)
    (command : string) (args : list string) (env : EnvArg)
    (stdout_file stderr_file : option string) (t : thread) (st : State) :
  registry_wf st →
  registry_wf (Exec_any self k command args env stdout_file stderr_file t st).1.
Proof.
  apply (Exec_any_preserves registry_wf); try done.
  apply registry_wf_lambda.
Qed.

Lemma registry_wf_stale : registry_wf stale.
Proof.
  split; unfold stale; cbn [child_process_map status_states].
  - intros pid v Hv. apply lookup_insert_Some in Hv as [[_ <-]|[_ Hv]]; [|done].
    cbn [status_promise]. rewrite lookup_insert_eq. eauto.
  - intros pid1 pid2 v1 v2 Hv1 Hv2 _.
    apply lookup_insert_Some in Hv1 as [[<- _]|[_ Hv1]]; [|done].
    apply lookup_insert_Some in Hv2 as [[<- _]|[_ Hv2]]; done.
Defined.

Lemma Exec_keeps_registry_wf_witness :
  registry_wf stale
  ∧ registry_wf (Exec_any starter (mkKernel 4300 0 None 0) "/bin/echo" ["hello"] Inherited
                   None None (Worker 0) stale).1.
Proof.
  split; [exact registry_wf_stale|].
  exact (Exec_keeps_registry_wf starter (mkKernel 4300 0 None 0) "/bin/echo" ["hello"]
           Inherited None None (Worker 0) stale registry_wf_stale).
Defined.

(** ** The system calls of the lambda, kind by kind *)

Lemma calls_of_app kind l1 l2 : calls_of kind (l1 ++ l2) = calls_of kind l1 ++ calls_of kind l2.
Proof. apply filter_app. Qed.

Lemma calls_of_lambda_start w :
  calls_of is_kill (lambda_start w) = []
  ∧ calls_of is_fork (lambda_start w) = [SysFork (fork_ret (w_kernel w))]
  ∧ calls_of is_execve_call (lambda_start w) = []
  ∧ calls_of is_abort (lambda_start w) = [].
Proof. done. Qed.

Lemma calls_of_DoExecve_calls command args env stdout_file stderr_file :
  let calls := DoExecve_calls command args env stdout_file stderr_file in
  calls_of is_kill calls = []
  ∧ calls_of is_fork calls = []
  ∧ calls_of is_execve_call calls
    = [SysExecve command (command :: args) (key_value <$> map_to_list env)]
  ∧ calls_of is_abort calls = [].
Proof. destruct stdout_file, stderr_file; done. Qed.

(** The calls of one run of the lambda, taken out of the trace. *)
Lemma Exec_lambda_calls_by_branch w t st :
  let pid := fork_ret (w_kernel w) in
  ∃ calls,
    events (Exec_lambda w t st).1 = events st ++ ((λ e, (t, e)) <$> calls)
    ∧ ((pid = -1 ∧ calls = lambda_start w)
       ∨ (pid = 0
          ∧ ∃ tail,
              calls = lambda_start w
                      ++ DoExecve_calls (w_command w) (w_args w) (w_env w)
                           (w_stdout_file w) (w_stderr_file w)
                      ++ tail
              ∧ (tail = []
                 ∨ (tail = [SysAbort]
                    ∧ ∃ r, execve_ret (w_kernel w) = Some r ∧ r ≠ -1)))
       ∨ (pid ≠ -1 ∧ pid ≠ 0 ∧ is_Some (child_process_map st !! pid)
          ∧ calls = lambda_start w ++ lambda_parent pid ++ collision_calls pid)
       ∨ (pid ≠ -1 ∧ pid ≠ 0 ∧ child_process_map st !! pid = None
          ∧ calls = lambda_start w ++ lambda_parent pid ++ [RegistrySet pid true])).
Proof.
  intros pid.
  destruct (decide (pid = -1)) as [H1|H1].
  { exists (lambda_start w). rewrite Exec_lambda_fork_failed by done.
    cbn [fst events set_errno]. rewrite events_add_events. auto. }
  destruct (decide (pid = 0)) as [H0|H0].
  { rewrite Exec_lambda_child, DoExecve_run by done. cbv zeta.
    destruct (execve_ret (w_kernel w)) as [r|]; [destruct (decide (r = -1))|];
      cbn [fst events set_errno add_event]; rewrite !events_add_events.
    - eexists. split; [by rewrite <- app_assoc, <- fmap_app|].
      right; left. split; [done|]. exists []. rewrite app_nil_r. auto.
    - exists (lambda_start w
              ++ DoExecve_calls (w_command w) (w_args w) (w_env w)
                   (w_stdout_file w) (w_stderr_file w)
              ++ [SysAbort]).
      split; [by rewrite !fmap_app, <- !app_assoc|].
      right; left. split; [done|]. exists [SysAbort]. eauto 10.
    - eexists. split; [by rewrite <- app_assoc, <- fmap_app|].
      right; left. split; [done|]. exists []. rewrite app_nil_r. auto. }
  destruct (child_process_map st !! pid) as [present|] eqn:Hm.
  - eexists. rewrite (Exec_lambda_collision _ _ _ present) by done.
    cbn [fst events set_exec_states]. rewrite events_add_events.
    split; [reflexivity|]. do 2 right; left. eauto.
  - eexists. rewrite Exec_lambda_registered by done.
    cbn [fst events set_exec_states set_child_process_map set_status_states].
    rewrite events_add_events.
    split; [reflexivity|]. do 3 right. eauto.
Qed.

(** X4: in one run, the lambda of [Exec] sends at most one signal; it sends
    one exactly when [fork] returned a child pid that already has a registry
    entry, and then it is [SIGKILL] to that very pid.  When [fork] failed, in
    the child, and after a successful registration no signal is sent. *)
Theorem lambda_signals_only_the_colliding_pid (w : work_item) (t : thread) (st : State) :
  let pid := fork_ret (w_kernel w) in
  ∃ calls,
    events (Exec_lambda w t st).1 = events st ++ ((λ e, (t, e)) <$> calls)
    ∧ calls_of is_kill calls
      = (if decide (pid ≠ -1 ∧ pid ≠ 0 ∧ is_Some (child_process_map st !! pid))
         then [SysKill pid SIGKILL] else []).
Proof.
  intros pid.
  destruct (Exec_lambda_calls_by_branch w t st) as (calls & Hev & Hcases).
  exists calls. split; [exact Hev|]. fold pid in Hcases.
  destruct (calls_of_lambda_start w) as (Hk & _).
  destruct (calls_of_DoExecve_calls (w_command w) (w_args w) (w_env w)
              (w_stdout_file w) (w_stderr_file w)) as (Hkd & _).
  destruct Hcases as [[H1 ->]|[[H0 (tail & -> & Htail)]
                     |[(H1 & H0 & Hsome & ->)|(H1 & H0 & Hnone & ->)]]].
  - rewrite decide_False by (intros (? & _); done). done.
  - rewrite decide_False by (intros (_ & ? & _); done).
    rewrite !calls_of_app, Hk, Hkd.
    destruct Htail as [->|(-> & _)]; done.
  - rewrite decide_True by done. rewrite !calls_of_app, Hk. done.
  - rewrite decide_False.
    + rewrite !calls_of_app, Hk. done.
    + intros (_ & _ & [x Hx]). congruence.
Qed.

(** X5: one run of the lambda of [Exec] calls [fork] exactly once, whatever
    the result.  It calls [execve] only when [fork] returned 0, and then
    exactly once, with the command as path and as first argument, the
    arguments behind it in their order, and one string [key=value] for each
    variable of the environment. *)
Theorem lambda_forks_once_and_execs_in_the_child (w : work_item) (t : thread) (st : State) :
  let pid := fork_ret (w_kernel w) in
  ∃ calls,
    events (Exec_lambda w t st).1 = events st ++ ((λ e, (t, e)) <$> calls)
    ∧ calls_of is_fork calls = [SysFork pid]
    ∧ calls_of is_execve_call calls
      = (if decide (pid = 0)
         then [SysExecve (w_command w) (w_command w :: w_args w)
                 (key_value <$> map_to_list (w_env w))]
         else []).
Proof.
  intros pid.
  destruct (Exec_lambda_calls_by_branch w t st) as (calls & Hev & Hcases).
  exists calls. split; [exact Hev|]. fold pid in Hcases.
  destruct (calls_of_lambda_start w) as (_ & Hf & He & _).
  destruct (calls_of_DoExecve_calls (w_command w) (w_args w) (w_env w)
              (w_stdout_file w) (w_stderr_file w)) as (_ & Hfd & Hed & _).
  fold pid in Hf.
  destruct Hcases as [[H1 ->]|[[H0 (tail & -> & Htail)]
                     |[(H1 & H0 & Hsome & ->)|(H1 & H0 & Hnone & ->)]]].
  - rewrite decide_False by (rewrite H1; done). done.
  - rewrite decide_True by done. rewrite !calls_of_app, Hf, He, Hfd, Hed.
    destruct Htail as [->|(-> & _)]; done.
  - rewrite decide_False by done. rewrite !calls_of_app, Hf, He. done.
  - rewrite decide_False by done. rewrite !calls_of_app, Hf, He. done.
Qed.

(** X6: in the child ([fork] returned 0) the lambda of [Exec] never comes to
    a normal end: the image is replaced when [execve] succeeds, and otherwise
    the lambda is left by an exception or by [abort()].  Either way the child
    touches neither the promises of the callers nor the registry nor the
    status shared states. *)
Theorem child_never_completes_the_lambda (w : work_item) (t : thread) (st : State) :
  fork_ret (w_kernel w) = 0 →
  let r := Exec_lambda w t st in
  (r.2 = Replaced ∧ execve_ret (w_kernel w) = None
   ∨ r.2 = Throw (system_error (execve_errno (w_kernel w)) "execve")
     ∧ execve_ret (w_kernel w) = Some (-1)
   ∨ r.2 = Aborted ∧ ∃ x, execve_ret (w_kernel w) = Some x ∧ x ≠ -1)
  ∧ exec_states r.1 = exec_states st
  ∧ child_process_map r.1 = child_process_map st
  ∧ status_states r.1 = status_states st.
Proof.
  intros Hf r. subst r. rewrite Exec_lambda_child, DoExecve_run by done. cbv zeta.
  destruct (execve_ret (w_kernel w)) as [x|]; [destruct (decide (x = -1)) as [->|]|];
    cbn [fst snd exec_states child_process_map status_states set_errno add_event];
    rewrite !exec_states_add_events, !child_process_map_add_events,
      !status_states_add_events; eauto 10.
Qed.

Lemma child_never_completes_the_lambda_witness :
  let w := mkWorkItem in_child_no_such_file 0%nat "/no/such/file" [] ∅ None None in
  let r := Exec_lambda w EvDefaultLoopThread idle in
  fork_ret (w_kernel w) = 0
  ∧ (r.2 = Replaced ∧ execve_ret (w_kernel w) = None
     ∨ r.2 = Throw (system_error (execve_errno (w_kernel w)) "execve")
       ∧ execve_ret (w_kernel w) = Some (-1)
     ∨ r.2 = Aborted ∧ ∃ x, execve_ret (w_kernel w) = Some x ∧ x ≠ -1)
  ∧ exec_states r.1 = exec_states idle
  ∧ child_process_map r.1 = child_process_map idle
  ∧ status_states r.1 = status_states idle.
Proof.
  split; [reflexivity|].
  exact (child_never_completes_the_lambda
           (mkWorkItem in_child_no_such_file 0%nat "/no/such/file" [] ∅ None None)
           EvDefaultLoopThread idle eq_refl).
Defined.

(** ** The strings of envp *)

#[local] Arguments String.append !_ _ : simpl nomatch.

Lemma string_app_nil_r (s : string) : s +:+ "" = s.
Proof. induction s as [|c s IH]; simpl; [done|by rewrite IH]. Qed.

Lemma string_app_assoc (s1 s2 s3 : string) : (s1 +:+ s2) +:+ s3 = s1 +:+ s2 +:+ s3.
Proof. induction s1 as [|c s1 IH]; simpl; [done|by rewrite IH]. Qed.

Lemma key_value_inj k1 v1 k2 v2 :
  has_equals k1 = false → has_equals k2 = false →
  key_value (k1, v1) = key_value (k2, v2) → k1 = k2 ∧ v1 = v2.
Proof.
  unfold key_value. simpl. revert k2.
  induction k1 as [|c1 k1 IH]; intros [|c2 k2]; simpl; intros H1 H2 Heq.
  - by inversion Heq.
  - inversion Heq; subst. by rewrite bool_decide_eq_true_2 in H2.
  - inversion Heq; subst. by rewrite bool_decide_eq_true_2 in H1.
  - inversion Heq; subst.
    destruct (bool_decide (String c2 "" = "=")); [done|].
    destruct (IH k2 H1 H2) as [-> ->]; done.
Qed.

Lemma c_str_app (s1 s2 : string) :
  has_nul s1 = false → c_str (s1 +:+ s2) = s1 +:+ c_str s2.
Proof.
  induction s1 as [|c s1 IH]; simpl; [done|]. intros H.
  apply orb_false_iff in H as [Hc H]. apply bool_decide_eq_false in Hc.
  rewrite decide_False by done. by rewrite IH.
Qed.

Lemma c_str_no_nul (s : string) : has_nul s = false → c_str s = s.
Proof.
  intros H. rewrite <- (string_app_nil_r s) at 1.
  rewrite c_str_app by done. simpl. apply string_app_nil_r.
Qed.

Lemma c_str_key_value (key value : string) :
  has_nul key = false → has_nul value = false →
  c_str (key_value (key, value)) = key_value (key, value).
Proof.
  intros Hk Hv. unfold key_value. cbn [fst snd].
  rewrite c_str_app by done. f_equal.
  cbn [String.append c_str]. rewrite c_str_no_nul by done.
  by destruct (decide _).
Qed.

(** X7: [DoExecve] gives [execve] the [c_str()] of each string of envp_buf,
    so [execve] reads each up to its first NUL.  When no variable name of the
    environment holds a [=] and neither a name nor a value holds a NUL, the
    strings that [execve] reads tell the variables apart: there is one for
    each variable, none comes twice, and [key=value] is among them exactly
    when the environment gives [value] to [key]. *)
Theorem envp_tells_the_variables_apart (k : Kernel) (command : string)
    (args : list string) (env : EnvironmentVariables)
    (stdout_file stderr_file : option string) (t : thread) (st : State) :
  (∀ key value, env !! key = Some value →
     has_equals key = false ∧ has_nul key = false ∧ has_nul value = false) →
  ∃ envp_buf,
    (t, SysExecve command (command :: args) envp_buf)
      ∈ events (DoExecve k command args env stdout_file stderr_file t st).1
    ∧ let envp := c_str <$> envp_buf in
      length envp = size env
      ∧ NoDup envp
      ∧ (∀ key value, has_equals key = false →
           key +:+ "=" +:+ value ∈ envp ↔ env !! key = Some value).
Proof.
  intros Hkeys. exists (key_value <$> map_to_list env).
  assert (Hread : c_str <$> (key_value <$> map_to_list env) = key_value <$> map_to_list env).
  { rewrite <- list_fmap_compose. apply list_fmap_ext.
    intros i [key value] Hi. cbn [compose].
    apply list_elem_of_lookup_2, elem_of_map_to_list, Hkeys in Hi as (_ & Hk & Hv).
    by apply c_str_key_value. }
  cbv zeta. rewrite Hread. clear Hread.
  assert (Hname : ∀ key value, env !! key = Some value → has_equals key = false).
  { intros key value Hk. by destruct (Hkeys key value Hk). }
  split; [|split; [|split]].
  - rewrite DoExecve_run. cbv zeta.
    assert (Hin : (t, SysExecve command (command :: args) (key_value <$> map_to_list env))
                  ∈ events (add_events t
                              (DoExecve_calls command args env stdout_file stderr_file) st)).
    { rewrite events_add_events. apply elem_of_app; right.
      apply list_elem_of_fmap. eexists; split; [reflexivity|].
      unfold DoExecve_calls. rewrite !elem_of_app. right; right.
      by apply list_elem_of_singleton. }
    destruct (execve_ret k) as [r|]; [destruct (decide (r = -1))|];
      cbn [fst events set_errno add_event]; [done| |done].
    apply elem_of_app; by left.
  - by rewrite length_fmap, length_map_to_list.
  - apply NoDup_fmap_2_strong; [|apply NoDup_map_to_list].
    intros [k1 v1] [k2 v2] H1 H2 Heq.
    apply elem_of_map_to_list in H1, H2.
    destruct (key_value_inj k1 v1 k2 v2) as [-> ->]; eauto.
  - intros key value Hkey. rewrite list_elem_of_fmap. split.
    + intros ([k' v'] & Heq & Hin). apply elem_of_map_to_list in Hin.
      destruct (key_value_inj key value k' v') as [-> ->]; eauto.
    + intros Hin. exists (key, value). split; [done|]. by apply elem_of_map_to_list.
Qed.

Lemma envp_tells_the_variables_apart_witness :
  (∀ key value, sample_environ !! key = Some value →
     has_equals key = false ∧ has_nul key = false ∧ has_nul value = false)
  ∧ ∃ envp_buf,
      (EvDefaultLoopThread, SysExecve "/usr/bin/env" ["/usr/bin/env"] envp_buf)
        ∈ events (DoExecve in_child "/usr/bin/env" [] sample_environ None None
                    EvDefaultLoopThread idle).1
      ∧ let envp := c_str <$> envp_buf in
        length envp = size sample_environ
        ∧ NoDup envp
        ∧ (∀ key value, has_equals key = false →
             key +:+ "=" +:+ value ∈ envp ↔ sample_environ !! key = Some value).
Proof.
  assert (Hkeys : ∀ key value,
            sample_environ !! key = Some value →
            has_equals key = false ∧ has_nul key = false ∧ has_nul value = false).
  { intros key value Hk. unfold sample_environ in Hk.
    apply lookup_insert_Some in Hk as [[<- <-]|[_ Hk]]; [done|].
    apply lookup_insert_Some in Hk as [[<- <-]|[_ Hk]]; done. }
  split; [exact Hkeys|].
  exact (envp_tells_the_variables_apart in_child "/usr/bin/env" [] sample_environ
           None None EvDefaultLoopThread idle Hkeys).
Defined.

(** X8: [DoExecve] does not look at the variable names.  A name that holds
    a [=] is joined to its value like any other, and the boundary is lost:
    the environment that gives [w] to the name [k=v] and the environment that
    gives [v=w] to the name [k] are different environments and reach
    [execve] as the same envp. *)
Theorem envp_loses_the_boundary_of_a_name_with_equals (k0 : Kernel) (command : string)
    (args : list string) (stdout_file stderr_file : option string)
    (t : thread) (st : State) (k v w : string) :
  let env1 : EnvironmentVariables := {[ k +:+ "=" +:+ v := w ]} in
  let env2 : EnvironmentVariables := {[ k := v +:+ "=" +:+ w ]} in
  env1 ≠ env2
  ∧ DoExecve k0 command args env1 stdout_file stderr_file t st
    = DoExecve k0 command args env2 stdout_file stderr_file t st.
Proof.
  intros env1 env2. split.
  - intros Heq. assert (Hl : env1 !! k = env2 !! k) by (by rewrite Heq).
    subst env1 env2. rewrite lookup_singleton_eq in Hl.
    rewrite lookup_singleton_ne in Hl; [done|].
    intros Hk. rewrite <- (string_app_nil_r k) in Hk at 2.
    apply (inj (String.append k)) in Hk. discriminate.
  - rewrite !DoExecve_run. unfold DoExecve_calls. subst env1 env2.
    rewrite !map_to_list_singleton. cbn [fmap list_fmap].
    assert (key_value (k +:+ "=" +:+ v, w) = key_value (k, v +:+ "=" +:+ w)) as ->; [|done].
    unfold key_value. cbn [fst snd]. by rewrite string_app_assoc.
Qed.

(** ** One call of Exec after another *)

Lemma earlier_funcs_run_empty command t st :
  ev_queue st = [] → earlier_funcs_run command t st (Exec_entered command t st).
Proof. intros Hq. unfold earlier_funcs_run. by rewrite Hq. Qed.

(** With no function waiting, the function of the call starts on the
    registry and the status states of the caller's state. *)
Lemma Exec_entered_fields command t st :
  child_process_map (Exec_entered command t st) = child_process_map st
  ∧ status_states (Exec_entered command t st) = status_states st
  ∧ ev_queue (Exec_entered command t st) = [].
Proof. done. Qed.

(** A call that registers its pid, with no other function waiting. *)
Lemma Exec_any_registers self k command args env stdout_file stderr_file t st :
  let pid := fork_ret k in
  let s := fresh (dom (status_states st)) in
  pid ≠ -1 → pid ≠ 0 → ev_queue st = [] → child_process_map st !! pid = None →
  ∃ st',
    Exec_any self k command args env stdout_file stderr_file t st
    = (st', Ret (mkChildProcessImpl pid (Some s)))
    ∧ child_process_map st' = <[pid := mkChildProcessMapValue s]> (child_process_map st)
    ∧ status_states st' = <[s := NotReady]> (status_states st)
    ∧ ev_queue st' = [].
Proof.
  intros pid s H1 H0 Hq Hm. rewrite Exec_any_unfold.
  rewrite (Exec_run _ _ _ _ _ _ _ _ _ _ (earlier_funcs_run_empty command t st Hq)).
  cbv zeta.
  destruct (Exec_entered_fields command t st) as (Hmap & Hst & Hqueue).
  set (st1 := Exec_entered command t st) in *. clearbody st1.
  set (w := mkWorkItem k _ _ _ _ _ _).
  assert (Hm1 : child_process_map st1 !! fork_ret (w_kernel w) = None)
    by (rewrite Hmap; exact Hm).
  rewrite (Exec_lambda_registered w (thread_control_ self) st1 H1 H0 Hm1).
  unfold resume. cbn [exec_states set_exec_states set_child_process_map
                      set_status_states w_promise w_kernel w].
  rewrite lookup_insert_eq. eexists. split.
  { rewrite Hst. reflexivity. }
  cbn [child_process_map status_states ev_queue set_exec_states
       set_child_process_map set_status_states].
  rewrite child_process_map_add_events, status_states_add_events, ev_queue_add_events.
  rewrite Hmap, Hst, Hqueue. split; [reflexivity|]. split; reflexivity.
Qed.

(** A call whose pid is already registered, with no other function waiting. *)
Lemma Exec_any_collides self k command args env stdout_file stderr_file t st present :
  let pid := fork_ret k in
  pid ≠ -1 → pid ≠ 0 → ev_queue st = [] → child_process_map st !! pid = Some present →
  ∃ st',
    Exec_any self k command args env stdout_file stderr_file t st
    = (st', Throw (runtime_error (collision_msg pid)))
    ∧ child_process_map st' = child_process_map st
    ∧ status_states st' = status_states st
    ∧ ev_queue st' = [].
Proof.
  intros pid H1 H0 Hq Hm. rewrite Exec_any_unfold.
  rewrite (Exec_run _ _ _ _ _ _ _ _ _ _ (earlier_funcs_run_empty command t st Hq)).
  cbv zeta.
  destruct (Exec_entered_fields command t st) as (Hmap & Hst & Hqueue).
  set (st1 := Exec_entered command t st) in *. clearbody st1.
  set (w := mkWorkItem k _ _ _ _ _ _).
  assert (Hm1 : child_process_map st1 !! fork_ret (w_kernel w) = Some present)
    by (rewrite Hmap; exact Hm).
  rewrite (Exec_lambda_collision w (thread_control_ self) st1 present H1 H0 Hm1).
  unfold resume. cbn [exec_states set_exec_states w_promise w_kernel w].
  rewrite lookup_insert_eq. eexists. split; [reflexivity|].
  cbn [child_process_map status_states ev_queue set_exec_states].
  rewrite child_process_map_add_events, status_states_add_events, ev_queue_add_events.
  rewrite Hmap, Hst, Hqueue. split; [reflexivity|]. split; reflexivity.
Qed.

(** X9: a pid that comes back from [fork] while the entry of an earlier
    spawn with that pid is still in the registry.  The first call of [Exec]
    returns the handle of the pid; the second call, whose [fork] returns the
    same pid, raises the collision error, and the entry of the first spawn
    stays as it is: it holds the state that the first handle waits on, and
    that state is still not set. *)
Theorem second_spawn_of_a_registered_pid_collides (self : ProcessStarter)
    (k1 k2 : Kernel) (command1 command2 : string) (args1 args2 : list string)
    (env1 env2 : EnvArg) (stdout_file1 stderr_file1 stdout_file2 stderr_file2 : option string)
    (t1 t2 : thread) (st : State) :
  let pid := fork_ret k1 in
  pid ≠ -1 → pid ≠ 0 → fork_ret k2 = pid →
  ev_queue st = [] → child_process_map st !! pid = None →
  ∃ st1 s st2,
    Exec_any self k1 command1 args1 env1 stdout_file1 stderr_file1 t1 st
    = (st1, Ret (mkChildProcessImpl pid (Some s)))
    ∧ Exec_any self k2 command2 args2 env2 stdout_file2 stderr_file2 t2 st1
      = (st2, Throw (runtime_error (collision_msg pid)))
    ∧ child_process_map st2 = child_process_map st1
    ∧ child_process_map st2 !! pid = Some (mkChildProcessMapValue s)
    ∧ status_states st2 !! s = Some NotReady.
Proof.
  intros pid H1 H0 Hk2 Hq Hm.
  destruct (Exec_any_registers self k1 command1 args1 env1 stdout_file1 stderr_file1
              t1 st H1 H0 Hq Hm) as (st1 & Hrun1 & Hmap1 & Hst1 & Hq1).
  assert (Hpresent : child_process_map st1 !! fork_ret k2
                     = Some (mkChildProcessMapValue (fresh (dom (status_states st))))).
  { rewrite Hk2, Hmap1. apply lookup_insert_eq. }
  destruct (Exec_any_collides self k2 command2 args2 env2 stdout_file2 stderr_file2
              t2 st1 _ ltac:(by rewrite Hk2) ltac:(by rewrite Hk2) Hq1 Hpresent)
    as (st2 & Hrun2 & Hmap2 & Hst2 & _).
  exists st1, (fresh (dom (status_states st))), st2.
  rewrite Hk2 in Hrun2. split; [exact Hrun1|]. split; [exact Hrun2|].
  split; [exact Hmap2|]. split.
  - rewrite Hmap2, Hmap1. apply lookup_insert_eq.
  - rewrite Hst2, Hst1. apply lookup_insert_eq.
Qed.

Lemma second_spawn_of_a_registered_pid_collides_witness :
  (fork_ret in_parent ≠ -1 ∧ fork_ret in_parent ≠ 0
   ∧ fork_ret (mkKernel 4242 0 None 0) = fork_ret in_parent
   ∧ ev_queue idle = [] ∧ child_process_map idle !! fork_ret in_parent = None)
  ∧ ∃ st1 s st2,
      Exec_any starter in_parent "/bin/sleep" ["60"] Inherited None None (Worker 0) idle
      = (st1, Ret (mkChildProcessImpl 4242 (Some s)))
      ∧ Exec_any starter (mkKernel 4242 0 None 0) "/bin/echo" ["hello"] (FullEnv ∅)
          None None (Worker 1) st1
        = (st2, Throw (runtime_error (collision_msg 4242)))
      ∧ child_process_map st2 = child_process_map st1
      ∧ child_process_map st2 !! 4242 = Some (mkChildProcessMapValue s)
      ∧ status_states st2 !! s = Some NotReady.
Proof.
  split; [repeat split; done|].
  exact (second_spawn_of_a_registered_pid_collides starter in_parent
           (mkKernel 4242 0 None 0) "/bin/sleep" "/bin/echo" ["60"] ["hello"]
           Inherited (FullEnv ∅) None None None None (Worker 0) (Worker 1) idle
           ltac:(done) ltac:(done) eq_refl eq_refl eq_refl).
Defined.

(** X10: two spawns one after the other, with different pids that are both
    new to the registry: both calls of [Exec] return a handle, the two
    handles wait on different shared states, each pid is registered with the
    state of its own handle, and both states are still not set. *)
Theorem two_spawns_wait_on_separate_states (self : ProcessStarter)
    (k1 k2 : Kernel) (command1 command2 : string) (args1 args2 : list string)
    (env1 env2 : EnvArg) (stdout_file1 stderr_file1 stdout_file2 stderr_file2 : option string)
    (t1 t2 : thread) (st : State) :
  let pid1 := fork_ret k1 in
  let pid2 := fork_ret k2 in
  pid1 ≠ -1 → pid1 ≠ 0 → pid2 ≠ -1 → pid2 ≠ 0 → pid1 ≠ pid2 →
  ev_queue st = [] →
  child_process_map st !! pid1 = None → child_process_map st !! pid2 = None →
  ∃ st1 s1 st2 s2,
    Exec_any self k1 command1 args1 env1 stdout_file1 stderr_file1 t1 st
    = (st1, Ret (mkChildProcessImpl pid1 (Some s1)))
    ∧ Exec_any self k2 command2 args2 env2 stdout_file2 stderr_file2 t2 st1
      = (st2, Ret (mkChildProcessImpl pid2 (Some s2)))
    ∧ s1 ≠ s2
    ∧ child_process_map st2 !! pid1 = Some (mkChildProcessMapValue s1)
    ∧ child_process_map st2 !! pid2 = Some (mkChildProcessMapValue s2)
    ∧ status_states st2 !! s1 = Some NotReady
    ∧ status_states st2 !! s2 = Some NotReady.
Proof.
  intros pid1 pid2 H11 H10 H21 H20 Hne Hq Hm1 Hm2.
  destruct (Exec_any_registers self k1 command1 args1 env1 stdout_file1 stderr_file1
              t1 st H11 H10 Hq Hm1) as (st1 & Hrun1 & Hmap1 & Hst1 & Hq1).
  assert (Hm2' : child_process_map st1 !! fork_ret k2 = None).
  { rewrite Hmap1, lookup_insert_ne; done. }
  destruct (Exec_any_registers self k2 command2 args2 env2 stdout_file2 stderr_file2
              t2 st1 H21 H20 Hq1 Hm2') as (st2 & Hrun2 & Hmap2 & Hst2 & _).
  set (s1 := fresh (dom (status_states st))) in *.
  set (s2 := fresh (dom (status_states st1))) in *.
  assert (Hs : s1 ≠ s2).
  { intros Heq. pose proof (fresh_status_state (status_states st1)) as Hfresh.
    fold s2 in Hfresh. rewrite <- Heq, Hst1, lookup_insert_eq in Hfresh. done. }
  exists st1, s1, st2, s2. split; [exact Hrun1|]. split; [exact Hrun2|].
  split; [exact Hs|]. rewrite Hmap2, Hst2, Hmap1, Hst1.
  split; [|split; [|split]].
  - rewrite lookup_insert_ne by done. apply lookup_insert_eq.
  - apply lookup_insert_eq.
  - rewrite lookup_insert_ne by done. apply lookup_insert_eq.
  - apply lookup_insert_eq.
Qed.

Lemma two_spawns_wait_on_separate_states_witness :
  let k2 := mkKernel 4243 0 None 0 in
  (fork_ret in_parent ≠ -1 ∧ fork_ret in_parent ≠ 0 ∧ fork_ret k2 ≠ -1 ∧ fork_ret k2 ≠ 0
   ∧ fork_ret in_parent ≠ fork_ret k2 ∧ ev_queue idle = []
   ∧ child_process_map idle !! fork_ret in_parent = None
   ∧ child_process_map idle !! fork_ret k2 = None)
  ∧ ∃ st1 s1 st2 s2,
      Exec_any starter in_parent "/bin/sleep" ["60"] Inherited None None (Worker 0) idle
      = (st1, Ret (mkChildProcessImpl 4242 (Some s1)))
      ∧ Exec_any starter k2 "/bin/echo" ["hello"] (FullEnv ∅) None None (Worker 1) st1
        = (st2, Ret (mkChildProcessImpl 4243 (Some s2)))
      ∧ s1 ≠ s2
      ∧ child_process_map st2 !! 4242 = Some (mkChildProcessMapValue s1)
      ∧ child_process_map st2 !! 4243 = Some (mkChildProcessMapValue s2)
      ∧ status_states st2 !! s1 = Some NotReady
      ∧ status_states st2 !! s2 = Some NotReady.
Proof.
  split; [repeat split; done|].
  exact (two_spawns_wait_on_separate_states starter in_parent (mkKernel 4243 0 None 0)
           "/bin/sleep" "/bin/echo" ["60"] ["hello"] Inherited (FullEnv ∅)
           None None None None (Worker 0) (Worker 1) idle
           ltac:(done) ltac:(done) ltac:(done) ltac:(done) ltac:(done)
           eq_refl eq_refl eq_refl).
Defined.

(** ** The environment of the full form *)

Lemma Exec_child_execve self k command args env stdout_file stderr_file t st st1 :
  fork_ret k = 0 →
  earlier_funcs_run command t st st1 →
  (thread_control_ self, SysExecve command (command :: args) (key_value <$> map_to_list env))
  ∈ events (Exec self k command args env stdout_file stderr_file t st).1.
Proof.
  intros Hf Hq.
  destruct (Exec_events self k command args env stdout_file stderr_file t st st1 Hq)
    as (tail & -> & _).
  apply elem_of_app; left.
  destruct (Exec_lambda_child_events
              (mkWorkItem k (fresh (dom (exec_states st))) command args env
                 stdout_file stderr_file) (thread_control_ self) st1 Hf)
    as (tl & -> & _).
  apply elem_of_app; right. apply list_elem_of_fmap.
  eexists; split; [reflexivity|]. unfold DoExecve_calls; cbn. set_solver.
Qed.

(** X11: with the full-environment form of [Exec] the child is started with
    the variables of [env] and nothing else: the envp of its [execve] holds
    the strings [key=value] of [env], one for each variable.  So an empty
    [env] starts the child with an empty envp, whereas the form without an
    environment starts it with one string for each variable of the parent. *)
Theorem full_env_replaces_the_environment (self : ProcessStarter) (k : Kernel)
    (command : string) (args : list string) (env : EnvironmentVariables)
    (stdout_file stderr_file : option string) (t : thread) (st st1 : State) :
  fork_ret k = 0 →
  earlier_funcs_run command t st st1 →
  let tc := thread_control_ self in
  (∃ envp,
     (tc, SysExecve command (command :: args) envp)
       ∈ events (Exec_any self k command args (FullEnv env) stdout_file stderr_file t st).1
     ∧ envp = key_value <$> map_to_list env
     ∧ length envp = size env)
  ∧ (tc, SysExecve command (command :: args) [])
      ∈ events (Exec_any self k command args (FullEnv ∅) stdout_file stderr_file t st).1
  ∧ (∃ envp,
       (tc, SysExecve command (command :: args) envp)
         ∈ events (Exec_any self k command args Inherited stdout_file stderr_file t st).1
       ∧ length envp = size (environ st)).
Proof.
  intros Hf Hq tc. split; [|split].
  - eexists. split; [apply (Exec_child_execve _ _ _ _ _ _ _ _ _ st1 Hf Hq)|].
    split; [done|]. by rewrite length_fmap, length_map_to_list.
  - pose proof (Exec_child_execve self k command args ∅ stdout_file stderr_file
                  t st st1 Hf Hq) as H.
    by rewrite map_to_list_empty in H.
  - eexists. split.
    + rewrite Exec_any_unfold. apply (Exec_child_execve _ _ _ _ _ _ _ _ _ st1 Hf Hq).
    + cbn [resolved_env]. by rewrite UpdateWith_empty, length_fmap, length_map_to_list.
Qed.

Lemma full_env_replaces_the_environment_witness :
  let st1 := Exec_entered "/usr/bin/env" (Worker 0) idle in
  let env : gmap string string := <["LANG" := "C"]> ∅ in
  (fork_ret in_child = 0 ∧ earlier_funcs_run "/usr/bin/env" (Worker 0) idle st1)
  ∧ (∃ envp,
       (EvDefaultLoopThread, SysExecve "/usr/bin/env" ["/usr/bin/env"] envp)
         ∈ events (Exec_any starter in_child "/usr/bin/env" [] (FullEnv env)
                     None None (Worker 0) idle).1
       ∧ envp = key_value <$> map_to_list env
       ∧ length envp = size env)
  ∧ (EvDefaultLoopThread, SysExecve "/usr/bin/env" ["/usr/bin/env"] [])
      ∈ events (Exec_any starter in_child "/usr/bin/env" [] (FullEnv ∅)
                  None None (Worker 0) idle).1
  ∧ (∃ envp,
       (EvDefaultLoopThread, SysExecve "/usr/bin/env" ["/usr/bin/env"] envp)
         ∈ events (Exec_any starter in_child "/usr/bin/env" [] Inherited
                     None None (Worker 0) idle).1
       ∧ length envp = size (environ idle)).
Proof.
  split; [split; reflexivity|].
  exact (full_env_replaces_the_environment starter in_child "/usr/bin/env" []
           (<["LANG" := "C"]> ∅) None None (Worker 0) idle
           (Exec_entered "/usr/bin/env" (Worker 0) idle) eq_refl eq_refl).
Defined.

(** ** What the texts say about the pid *)

Lemma string_length_app (s1 s2 : string) :
  String.length (s1 +:+ s2) = (String.length s1 + String.length s2)%nat.
Proof. induction s1 as [|c s1 IH]; simpl; [done|by rewrite IH]. Qed.

Lemma string_app_inj_r (s1 s2 suffix : string) :
  s1 +:+ suffix = s2 +:+ suffix → s1 = s2.
Proof.
  revert s2. induction s1 as [|c1 s1 IH]; intros [|c2 s2] Heq; simpl in Heq.
  - done.
  - apply (f_equal String.length) in Heq. simpl in Heq.
    rewrite string_length_app in Heq. lia.
  - apply (f_equal String.length) in Heq. simpl in Heq.
    rewrite string_length_app in Heq. lia.
  - inversion Heq; subst. f_equal. by apply IH.
Qed.

(** X12: the texts that carry the pid tell the pids apart.  The value of
    the span tag [child-process-pid], the text of the log record that follows
    it and the message of the collision error are each the same for two pids
    only when the pids are the same. *)
Theorem texts_tell_the_pids_apart (pid1 pid2 : Z) :
  (to_string pid1 = to_string pid2 ↔ pid1 = pid2)
  ∧ (lambda_parent pid1 = lambda_parent pid2 ↔ pid1 = pid2)
  ∧ (collision_msg pid1 = collision_msg pid2 ↔ pid1 = pid2).
Proof.
  assert (Hto : to_string pid1 = to_string pid2 → pid1 = pid2).
  { unfold to_string. apply (inj pretty). }
  split; [|split]; (split; [|by intros ->]).
  - exact Hto.
  - unfold lambda_parent. intros Heq. injection Heq as Htag _. by apply Hto.
  - unfold collision_msg. intros Heq.
    apply (inj (String.append "process with pid=")) in Heq.
    apply string_app_inj_r in Heq. by apply Hto.
Qed.

(** ** When abort() is reached *)

Lemma Exec_lambda_child_calls w t st :
  fork_ret (w_kernel w) = 0 →
  events (Exec_lambda w t st).1
  = events st
    ++ ((λ e, (t, e)) <$>
          (lambda_start w
           ++ DoExecve_calls (w_command w) (w_args w) (w_env w)
                (w_stdout_file w) (w_stderr_file w)
           ++ match execve_ret (w_kernel w) with
              | Some x => if decide (x = -1) then [] else [SysAbort]
              | None => []
              end)).
Proof.
  intros Hf. rewrite Exec_lambda_child, DoExecve_run by done. cbv zeta.
  destruct (execve_ret (w_kernel w)) as [r|]; [destruct (decide (r = -1))|];
    cbn [fst events set_errno add_event]; rewrite !events_add_events.
  - by rewrite app_nil_r, fmap_app, app_assoc.
  - by rewrite !fmap_app, <- !app_assoc.
  - by rewrite app_nil_r, fmap_app, app_assoc.
Qed.

(** X13: the [abort()] that closes [DoExecve] is among the calls of a run of
    the lambda of [Exec] exactly when the process is the child and [execve]
    came back with a value other than -1.  It is never called in the parent,
    and it is not called when [execve] fails with -1. *)
Theorem abort_needs_execve_to_return_other_than_minus_one (w : work_item) (t : thread)
    (st : State) :
  ∃ calls,
    events (Exec_lambda w t st).1 = events st ++ ((λ e, (t, e)) <$> calls)
    ∧ (SysAbort ∈ calls
       ↔ fork_ret (w_kernel w) = 0
         ∧ ∃ x, execve_ret (w_kernel w) = Some x ∧ x ≠ -1).
Proof.
  destruct (decide (fork_ret (w_kernel w) = 0)) as [H0|H0].
  - eexists. split; [by apply Exec_lambda_child_calls|].
    destruct (calls_of_lambda_start w) as (_ & _ & _ & Hs).
    destruct (calls_of_DoExecve_calls (w_command w) (w_args w) (w_env w)
                (w_stdout_file w) (w_stderr_file w)) as (_ & _ & _ & Hd).
    assert (Hnot : ∀ l, calls_of is_abort l = [] → SysAbort ∉ l).
    { intros l Hl Hin. assert (SysAbort ∈ calls_of is_abort l) as Hin'
        by (by apply list_elem_of_filter).
      rewrite Hl in Hin'. by apply elem_of_nil in Hin'. }
    rewrite !elem_of_app. split.
    + intros [Hin|[Hin|Hin]].
      * by destruct (Hnot _ Hs).
      * by destruct (Hnot _ Hd).
      * destruct (execve_ret (w_kernel w)) as [x|]; [|by apply elem_of_nil in Hin].
        destruct (decide (x = -1)); [by apply elem_of_nil in Hin|eauto].
    + intros (_ & x & -> & Hx). right; right. rewrite decide_False by done.
      by apply list_elem_of_singleton.
  - destruct (Exec_lambda_calls_by_branch w t st) as (calls & Hev & Hcases).
    exists calls. split; [exact Hev|]. split; [|by intros (? & _)].
    intros Hin. exfalso.
    destruct Hcases as [[_ ->]|[[? _]|[(_ & _ & _ & ->)|(_ & _ & _ & ->)]]]; [|done| |];
      unfold lambda_start, lambda_parent, collision_calls in Hin;
      elem_cases Hin; discriminate.
Qed.

(** ** The two kinds of status *)

(** X18: every [ChildProcessStatus] is either exited or signaled and not
    both: [IsExited()] is the negation of [IsSignaled()], and each agrees with
    [GetExitReason()]. *)
Theorem status_is_exited_or_signaled (s : ChildProcessStatus) :
  IsExited s = negb (IsSignaled s)
  ∧ (IsExited s = true ↔ GetExitReason s = kExited)
  ∧ (IsSignaled s = true ↔ GetExitReason s = kSignaled).
Proof.
  unfold IsExited, IsSignaled, GetExitReason.
  destruct (exit_reason_ s); repeat split; done.
Qed.

End subprocess.

(** * Properties of the test service *)

Module grpc_test_properties.
Import grpc_test.

Lemma ReadMany_for_run fuel i number sg writer :
  number ≤ INT_MAX → (Z.to_nat (number - i) ≤ fuel)%nat →
  ∃ last,
    ReadMany_for fuel i number sg writer
    = Done (last, writer ++ (set_number sg <$> seqZ i (number - i))).
Proof.
  revert i sg writer. induction fuel as [|fuel IH]; intros i sg writer Hmax Hfuel.
  - simpl. rewrite decide_False by lia. rewrite seqZ_nil by lia.
    exists sg. by rewrite app_nil_r.
  - simpl. destruct (decide (i < number)) as [Hlt|Hge].
    + rewrite decide_True by lia.
      destruct (IH (i + 1) (set_number sg i) (writer ++ [set_number sg i]) Hmax)
        as (last & ->); [lia|].
      exists last. rewrite (seqZ_cons i) by lia. rewrite fmap_cons, <- app_assoc.
      simpl. replace (Z.succ i) with (i + 1) by lia.
      replace (Z.pred (number - i)) with (number - (i + 1)) by lia.
      reflexivity.
    + rewrite seqZ_nil by lia. exists sg. by rewrite app_nil_r.
Qed.

(** X14: [ReadMany], for a request whose context carries the [req_header]:
    with the request number [n] (an [int]) it writes [n] replies when [n] is
    positive and none otherwise; reply [i], counted from 0, carries the number
    [i] and the name [Hello again ] followed by the name of the request; the
    status is [OK].  Fuel of [n] steps is enough for the loop. *)
Theorem ReadMany_writes_the_numbered_replies (fuel : nat) (context : ServerContext)
    (request : StreamGreeting) (entry : string * string) :
  sg_number request ≤ INT_MAX →
  (Z.to_nat (sg_number request) ≤ fuel)%nat →
  find "req_header" (client_metadata context) = Some entry →
  ∃ call,
    ReadMany fuel context request = Done call
    ∧ status call = OK
    ∧ written call = ReadMany_reply request <$> seqZ 0 (sg_number request)
    ∧ length (written call) = Z.to_nat (sg_number request)
    ∧ (∀ i : nat, Z.of_nat i < sg_number request →
         written call !! i = Some (ReadMany_reply request (Z.of_nat i))).
Proof.
  intros Hmax Hfuel Hfind. unfold ReadMany, CheckServerContext. rewrite Hfind.
  destruct (ReadMany_for_run fuel 0 (sg_number request)
              (set_name StreamGreeting_new ("Hello again " +:+ sg_name request)) []
              Hmax) as (last & ->); [by rewrite Z.sub_0_r|].
  rewrite Z.sub_0_r. eexists. split; [reflexivity|]. simpl.
  split; [done|]. split; [done|]. split.
  - by rewrite length_fmap, length_seqZ.
  - intros i Hi. rewrite list_lookup_fmap, lookup_seqZ_lt by done. done.
Qed.

Lemma ReadMany_writes_the_numbered_replies_witness :
  let context := mkServerContext [("req_header", "value")] [] in
  let request := mkStreamGreeting "userver" 42 in
  (sg_number request ≤ INT_MAX ∧ (Z.to_nat (sg_number request) ≤ 42)%nat
   ∧ find "req_header" (client_metadata context) = Some ("req_header", "value"))
  ∧ ∃ call,
      ReadMany 42 context request = Done call
      ∧ status call = OK
      ∧ written call = ReadMany_reply request <$> seqZ 0 (sg_number request)
      ∧ length (written call) = Z.to_nat (sg_number request)
      ∧ (∀ i : nat, Z.of_nat i < sg_number request →
           written call !! i = Some (ReadMany_reply request (Z.of_nat i))).
Proof.
  split; [repeat split; done|].
  exact (ReadMany_writes_the_numbered_replies 42
           (mkServerContext [("req_header", "value")] []) (mkStreamGreeting "userver" 42)
           ("req_header", "value") ltac:(done) ltac:(done) eq_refl).
Defined.

Lemma WriteMany_while_run reader in_ count :
  count ≤ INT_MAX →
  WriteMany_while reader in_ count
  = if decide (count + Z.of_nat (length reader) ≤ INT_MAX)
    then Done (default in_ (last reader), count + Z.of_nat (length reader))
    else Undefined.
Proof.
  revert in_ count. induction reader as [|message rest IH]; intros in_ count Hc.
  - simpl. rewrite decide_True by lia. by rewrite Z.add_0_r.
  - cbn [WriteMany_while length]. destruct (decide (count < INT_MAX)) as [Hlt|Hge].
    + rewrite IH by lia.
      replace (count + 1 + Z.of_nat (length rest))
        with (count + Z.of_nat (S (length rest))) by lia.
      destruct (decide _); [|done]. do 2 f_equal.
      rewrite last_cons. by destruct (last rest).
    + rewrite decide_False by lia. done.
Qed.

(** X15: [WriteMany], for a context that carries the [req_header]: the
    response has the name [Hello blabber] and, as its number, the number of
    messages the client sent (0 for an empty stream), as long as that number
    fits an [int]; with more messages the increment of the counter is
    undefined.  Nothing is written to the client. *)
Theorem WriteMany_counts_the_messages (context : ServerContext)
    (reader : list StreamGreeting) (entry : string * string) :
  find "req_header" (client_metadata context) = Some entry →
  (Z.of_nat (length reader) ≤ INT_MAX →
   ∃ call,
     WriteMany context reader = Done call
     ∧ status call = OK
     ∧ response call = mkStreamGreeting "Hello blabber" (Z.of_nat (length reader))
     ∧ written call = [])
  ∧ (INT_MAX < Z.of_nat (length reader) → WriteMany context reader = Undefined).
Proof.
  intros Hfind. unfold WriteMany, CheckServerContext. rewrite Hfind.
  rewrite WriteMany_while_run by done. rewrite Z.add_0_l. split; intros Hlen.
  - rewrite decide_True by done. eexists. split; [reflexivity|]. done.
  - rewrite decide_False by lia. done.
Qed.

Lemma WriteMany_counts_the_messages_witness :
  let context := mkServerContext [("req_header", "value")] [] in
  let reader := [mkStreamGreeting "userver" 0; mkStreamGreeting "userver" 1] in
  find "req_header" (client_metadata context) = Some ("req_header", "value")
  ∧ (Z.of_nat (length reader) ≤ INT_MAX →
     ∃ call,
       WriteMany context reader = Done call
       ∧ status call = OK
       ∧ response call = mkStreamGreeting "Hello blabber" (Z.of_nat (length reader))
       ∧ written call = [])
  ∧ (INT_MAX < Z.of_nat (length reader) → WriteMany context reader = Undefined).
Proof.
  split; [reflexivity|].
  exact (WriteMany_counts_the_messages (mkServerContext [("req_header", "value")] [])
           [mkStreamGreeting "userver" 0; mkStreamGreeting "userver" 1]
           ("req_header", "value") eq_refl).
Defined.

Lemma Chat_while_run stream in_ out count writer :
  0 ≤ count → count + Z.of_nat (length stream) ≤ INT_MAX →
  Chat_while stream in_ out count writer
  = Done (writer
          ++ imap (λ i message,
                     mkStreamGreeting ("Hello " +:+ sg_name message)
                       (count + Z.of_nat i + 1)) stream).
Proof.
  revert in_ out count writer.
  induction stream as [|message rest IH]; intros in_ out count writer Hc Hlen.
  - simpl. by rewrite app_nil_r.
  - cbn [Chat_while length] in *. rewrite decide_True by lia.
    rewrite IH by lia. rewrite imap_cons, <- app_assoc. simpl.
    do 3 f_equal.
    + unfold set_name, set_number. simpl. f_equal. lia.
    + apply imap_ext. intros i m _. simpl. f_equal. lia.
Qed.

(** X16: [Chat], for a context that carries the [req_header] and a client
    that sends no more messages than fit an [int]: the service writes one
    reply for each message, in the order of the messages; the reply to
    message [i], counted from 0, carries the number [i + 1] and the name
    [Hello ] followed by the name of that message.  An empty stream gets no
    reply. *)
Theorem Chat_replies_to_each_message (context : ServerContext)
    (stream : list StreamGreeting) (entry : string * string) :
  find "req_header" (client_metadata context) = Some entry →
  Z.of_nat (length stream) ≤ INT_MAX →
  ∃ call,
    Chat context stream = Done call
    ∧ status call = OK
    ∧ written call = imap Chat_reply stream
    ∧ length (written call) = length stream
    ∧ (∀ (i : nat) message, stream !! i = Some message →
         written call !! i
         = Some (mkStreamGreeting ("Hello " +:+ sg_name message) (Z.of_nat i + 1))).
Proof.
  intros Hfind Hlen. unfold Chat, CheckServerContext. rewrite Hfind.
  rewrite Chat_while_run by (done || lia).
  eexists. split; [reflexivity|]. simpl. split; [done|]. split; [done|]. split.
  - by rewrite length_imap.
  - intros i message Hi. by rewrite list_lookup_imap, Hi.
Qed.

Lemma Chat_replies_to_each_message_witness :
  let context := mkServerContext [("req_header", "value")] [] in
  let stream := [mkStreamGreeting "userver" 0; mkStreamGreeting "userver" 1] in
  (find "req_header" (client_metadata context) = Some ("req_header", "value")
   ∧ Z.of_nat (length stream) ≤ INT_MAX)
  ∧ ∃ call,
      Chat context stream = Done call
      ∧ status call = OK
      ∧ written call = imap Chat_reply stream
      ∧ length (written call) = length stream
      ∧ (∀ (i : nat) message, stream !! i = Some message →
           written call !! i
           = Some (mkStreamGreeting ("Hello " +:+ sg_name message) (Z.of_nat i + 1))).
Proof.
  split; [split; [reflexivity|done]|].
  exact (Chat_replies_to_each_message (mkServerContext [("req_header", "value")] [])
           [mkStreamGreeting "userver" 0; mkStreamGreeting "userver" 1]
           ("req_header", "value") eq_refl ltac:(done)).
Defined.

Lemma find_app_None key l1 l2 :
  find key l1 = None → find key (l1 ++ l2) = find key l2.
Proof.
  induction l1 as [|e l1 IH]; simpl; [done|].
  destruct (decide (e.1 = key)); [done|apply IH].
Qed.

(** X17: [SayHello] answers [Hello ] followed by the name of the request
    whenever it answers.  With the name [default_context] it does not look
    at the context at all: it answers for any metadata and adds no trailing
    metadata.  With any other name it checks the context first, so the call
    is undefined exactly when the metadata has no [req_header]; otherwise it
    answers, records whether the header is [value], and adds the trailing
    metadata [resp_header: value], which a client context that had no
    [resp_header] before then passes in [CheckClientContext]. *)
Theorem SayHello_greets_and_checks_the_context (context : ServerContext)
    (request : Greeting) :
  (∀ call, SayHello context request = Done call →
     status call = OK
     ∧ response call = mkGreeting ("Hello " +:+ g_name request)
     ∧ written call = [])
  ∧ (g_name request = "default_context" →
     SayHello context request
     = Done (mkCall OK (mkGreeting "Hello default_context") [] context []))
  ∧ (g_name request ≠ "default_context" →
     (SayHello context request = Undefined
      ↔ find "req_header" (client_metadata context) = None)
     ∧ ∀ entry, find "req_header" (client_metadata context) = Some entry →
         ∃ call,
           SayHello context request = Done call
           ∧ expectations call = [bool_decide (entry.2 = "value")]
           ∧ trailing_metadata (context_after call)
             = trailing_metadata context ++ [("resp_header", "value")]
           ∧ (find "resp_header" (trailing_metadata context) = None →
              CheckClientContext
                (mkClientContext (client_metadata context)
                   (trailing_metadata (context_after call)))
              = Done true)).
Proof.
  unfold SayHello, CheckServerContext. split; [|split].
  - intros call. destruct (decide (g_name request ≠ "default_context")).
    + destruct (find "req_header" (client_metadata context)); [|done].
      intros [= <-]. done.
    + intros [= <-]. done.
  - intros ->. done.
  - intros Hname. rewrite decide_True by done. split.
    + destruct (find "req_header" (client_metadata context)); split; done.
    + intros entry ->. eexists. split; [reflexivity|]. simpl.
      split; [done|]. split; [done|]. intros Hnone.
      unfold CheckClientContext. simpl. rewrite find_app_None by done. done.
Qed.

End grpc_test_properties.
